(** * keg-cli: tap links and task resolution

    A shallow embedding of
      - [repos/keg-cli/src/tasks/tap/link.js]       (registration of a tap link)
      - [repos/keg-cli/src/utils/task/findTask.js]  (resolution of a command)

    The JavaScript is effectful: it mutates the global config object and
    option arrays, prompts the operator, logs, and may end the process.
    It is modelled in a state monad with three outcomes (return, process
    exit, thrown error) over a store holding the global config, the saved
    config, the arrays allocated so far and the trace of observable events.

    The resolver is embedded twice.  The first embedding takes the task
    module of a tap as a function of the values it is handed, which throws
    an [Error] if it throws.  [Live] is the embedding for any module: one
    that changes the option array or the config it is handed, or that
    rejects without a value.  The two agree on the modules of the
    first. *)

From stdpp Require Import base option list strings gmap.

Local Open Scope string_scope.
Local Open Scope Z_scope.
Local Open Scope list_scope.

(** ** JavaScript values *)

(** [!s] on a string: only the empty string is falsy. *)
Definition truthy (s : string) : bool := bool_decide (s ≠ "").

(** Truthiness of a property that may be [undefined]. *)
Definition truthy_opt (o : option string) : bool :=
  match o with
  | Some s => truthy s
  | None => false
  end.

(** An [Error] that was thrown, with its [message].  What else a task
    module may throw is [thrown], below. *)
Record fault : Type := Fault { message : string }.

(** ** Data model *)

(** A tap link as stored under [GlobalConfig.tapLinks]: both properties
    may be missing on the object. *)
Record TapObj : Type := mkTapObj {
  tap_path : option string;
  tap_tasks : option string;
}.

(** The global config; this code touches its tap links only.  The container
    itself may be missing, see [addTapLink]. *)
Record GlobalConfig : Type := mkConfig {
  tapLinks : option (gmap string TapObj);
}.

(** A task definition, with the properties the resolver reads. *)
Record TaskDef : Type := mkTask {
  task_name : string;
  task_alias : list string;
  task_inject : bool;
}.

Abbreviation Tasks := (gmap string TaskDef).
Abbreviation Params := (gmap string string).

(** Arrays live in the store and are passed by reference: a reference is
    the rank of the array in the order of allocation. *)
Abbreviation ref := nat.

(** The object [getTask] returns and [checkLinkedTaps] completes. *)
Record TaskData : Type := mkTaskData {
  td_task : option TaskDef;
  td_options : ref;
  td_params : option Params;
}.

(** What [findTask] hands back: a falsy value, the empty object [{}] or the
    task data. *)
Inductive resolved : Type :=
  | Falsy
  | EmptyObject
  | Resolved (td : TaskData).

(** The argument object a tap's task module is called with. *)
Record LoaderArgs : Type := mkLoaderArgs {
  la_globalConfig : GlobalConfig;
  la_tasks : Tasks;
  la_command : string;
  la_options : list string;
}.

(** What [require(taskFile)] evaluates to: a task mapping, or a function
    producing one.  The function is one that reads the values of [args]
    and leaves the objects alone; a module that changes them is a
    [liveLoaded], below. *)
Inductive loaded : Type :=
  | StaticTasks (m : Tasks)
  | TaskFactory (f : LoaderArgs → fault + Tasks).

(** ** Observable events

    What a run shows to the outside: the lines it logs, the prompts with
    their answers, the saves of the config.  The lookups of the resolver
    are recorded too, the one of the link and each call of [getTask] with
    the place it is made from, so that their order can be stated. *)

Inductive site : Type := ViaTap | Direct.

Inductive event : Type :=
  | LogEmpty
  | LogWarn (s : string)
  | LogError (s : string)
  | LogSuccess (s : string)
  | Asked (msg : string) (answer : bool)
  | LinkLookup (command : string)
  | TaskLookup (from : site) (name : string)
  | Saved.

Global Instance site_eq_dec : EqDecision site.
Proof. solve_decision. Defined.

Global Instance event_eq_dec : EqDecision event.
Proof. solve_decision. Defined.

(** ** The store and the monad *)

Record state : Type := mkState {
  config : GlobalConfig;
  disk : GlobalConfig;
  arrays : list (list string);
  log : list event;
}.

Inductive outcome (A : Type) : Type :=
  | Ret (a : A)
  | Exit (code : Z)
  | Throw (e : fault).
Arguments Ret {A} a.
Arguments Exit {A} code.
Arguments Throw {A} e.

Definition M (A : Type) : Type := state → outcome A * state.

Global Instance M_ret : MRet M := λ A a st, (Ret a, st).

Global Instance M_bind : MBind M := λ A B f m st,
  match m st with
  | (Ret a, st') => f a st'
  | (Exit c, st') => (Exit c, st')
  | (Throw e, st') => (Throw e, st')
  end.

Definition exit {A} (code : Z) : M A := λ st, (Exit code, st).
Definition throw {A} (e : fault) : M A := λ st, (Throw e, st).

(** A fallible pure computation, run in the monad. *)
Definition lift {A} (r : fault + A) : M A :=
  match r with
  | inr a => mret a
  | inl e => throw e
  end.

Definition emit (e : event) : M unit := λ st,
  (Ret tt, mkState (config st) (disk st) (arrays st) (log st ++ [e])).

Definition getConfig : M GlobalConfig := λ st, (Ret (config st), st).

Definition setConfig (c : GlobalConfig) : M unit := λ st,
  (Ret tt, mkState c (disk st) (arrays st) (log st)).

(** Writing the in-memory config to disk. *)
Definition saveConfig : M unit := λ st,
  (Ret tt, mkState (config st) (config st) (arrays st) (log st ++ [Saved])).

(** A fresh array, as made by an array literal, a spread copy or a rest
    parameter. *)
Definition alloc (v : list string) : M ref := λ st,
  (Ret (length (arrays st)),
   mkState (config st) (disk st) (arrays st ++ [v]) (log st)).

Definition contents (r : ref) (st : state) : list string :=
  default [] (arrays st !! r).

Definition readArray (r : ref) : M (list string) := λ st, (Ret (contents r st), st).

Definition writeArray (r : ref) (v : list string) : M unit := λ st,
  (Ret tt, mkState (config st) (disk st) (<[r := v]> (arrays st)) (log st)).

(** [arr.splice(start, 0, item)]: a negative [start] counts from the end
    and is clamped at 0, a [start] past the end is clamped at the length. *)
Definition splice_index (len : nat) (start : Z) : nat :=
  if start <? 0 then Z.to_nat (Z.max (Z.of_nat len + start) 0)
  else Z.to_nat (Z.min start (Z.of_nat len)).

Definition splice_insert (start : Z) (item : string) (l : list string) : list string :=
  let i := splice_index (length l) start in
  take i l ++ item :: drop i l.

(** [arr[arr.length - 1]], [undefined] on an empty array. *)
Definition last_elem (l : list string) : option string := last l.

(** ** Collaborators

    Functions the two files call but which live elsewhere: the prompt
    ([@keg-hub/ask-it]), the file system helpers, Node's [path.join] and
    [require], and the CLI's own [getTask], [parseArgs], [injectService],
    [validateTask] and [hasHelpArg].  The embedding is parametric in them.
    They are functions of their arguments: they read what they are handed
    and mutate nothing. *)

Class Collaborators : Type := {
  (** [ask.confirm(message)]: the operator's answer. *)
  confirm : string → bool;
  (** [findPathByName(dir, name, { type: 'folder' })]: the paths found. *)
  findPathByName : string → string → list string;
  (** [checkPathExists(file)]. *)
  checkPathExists : string → bool;
  (** [path.join(...segments)]. *)
  pathJoin : list string → string;
  (** [require(file)]: the module's value, or the error raised on loading. *)
  require : string → fault + loaded;
  (** [getTask(tasks, name, ...options)]: the task found, if any, and the
      options left for it. *)
  getTask : Tasks → string → list string → option TaskDef * list string;
  (** [parseArgs({ task, options, command, params }, globalConfig)]. *)
  parseArgs : option TaskDef → list string → string → Params → GlobalConfig →
              fault + Params;
  (** [injectService({ taskData, app, injectPath })]. *)
  injectService : TaskData → string → string → fault + TaskData;
  (** [validateTask(task, taskName, hasHelp)], as a truth value. *)
  validateTask : option TaskDef → bool → fault + bool;
  (** [hasHelpArg(arg)], [arg] being [undefined] for an empty option list. *)
  hasHelpArg : option string → bool;
}.

(** [get(globalConfig, `${TAP_LINKS}.${name}`)] for a [name] that is one
    own key of the container ([plainKey], below): the link stored under
    that key, [undefined] when the container or the key is missing.  For a
    name with a dot in it [get] reads further down the path, and for the
    name of an inherited member it finds that member; neither is a link
    of the container, and neither is modelled. *)
Definition getTapLink (c : GlobalConfig) (name : string) : option TapObj :=
  tapLinks c ≫= (.!! name).

(** Modelled from the spec: [addGlobalConfigProp] (KegUtils) is missing; per
    the spec the link is added by a step that "writes tapObj under name,
    persists config".  The container exists when it is called. *)
Definition addGlobalConfigProp (name : string) (tapObj : TapObj) : M unit :=
  c ← getConfig;
  setConfig (mkConfig (Some (<[name := tapObj]> (default ∅ (tapLinks c)))));;
  saveConfig.

Section Link.
Context `{Collaborators}.

(** [ask.confirm(message)], recorded in the trace with its answer. *)
Definition askConfirm (msg : string) : M bool :=
  emit (Asked msg (confirm msg));; mret (confirm msg).

(** link.js, lines 17-21. *)
Definition ensureAddLink (currentTap : option TapObj) (tapName tapPath : string)
    (silent : bool) : M bool :=
  if bool_decide (is_Some currentTap) && truthy tapPath
  then
    if negb silent
    then askConfirm ("Overwrite tap link '" +:+ tapName +:+ "' => '" +:+ tapPath +:+ "'?")
    else mret false
  else mret true.

(** link.js, lines 33-50. *)
Definition addTapLink (name : string) (tapObj : TapObj) : M unit :=
  c ← getConfig;
  (if bool_decide (is_Some (tapLinks c)) then mret tt
   else setConfig (mkConfig (Some ∅)));;
  addGlobalConfigProp name tapObj;;
  emit (LogSuccess ("Successfully linked tap '" +:+ name +:+ "' => '"
                    +:+ default "undefined" (tap_path tapObj) +:+ "'"));;
  emit LogEmpty.

(** link.js, lines 61-83.  [Logger.warn] returns [undefined], so the
    missing index file yields a falsy result ([None]). *)
Definition checkCustomTaskFile (tapObj : TapObj) : M (option string) :=
  match tap_path tapObj with
  | None => throw (Fault "The path argument must be of type string")
  | Some p =>
      match head (findPathByName (pathJoin [p]) "tasks") with
      | None => mret None
      | Some foundPath =>
          if negb (truthy foundPath) then mret None
          else
            let indexFile := pathJoin [foundPath; "index.js"] in
            if negb (checkPathExists indexFile)
            then
              (emit (LogWarn "Linked tap task folder exists, but index.js file is missing!");;
               mret None)
            else mret (Some indexFile)
      end
  end.

(** link.js, lines 95-99. *)
Definition checkTapLocation (tapObj : TapObj) (location : string) : TapObj :=
  if negb (truthy_opt (tap_path tapObj))
     || negb (bool_decide (tap_path tapObj = Some location))
  then mkTapObj (Some location) (tap_tasks tapObj)
  else tapObj.

(** [{ ...currentTap }]: a fresh object with the link's own properties,
    the empty object when there is no link. *)
Definition spreadTap (currentTap : option TapObj) : TapObj :=
  default (mkTapObj None None) currentTap.

(** link.js, lines 101-119; [None] is the [false] it returns. *)
Definition buildTapObj (silent : bool) (name location : string) : M (option TapObj) :=
  c ← getConfig;
  let currentTap := getTapLink c name in
  addLink ← ensureAddLink currentTap name location silent;
  if negb addLink then mret None
  else
    let tapObj := checkTapLocation (spreadTap currentTap) location in
    customTasksFile ← checkCustomTaskFile tapObj;
    mret (Some (if truthy_opt customTasksFile
                then mkTapObj (tap_path tapObj) customTasksFile
                else tapObj)).

(** link.js, lines 131-143, on the [params] of the call. *)
Definition linkTap (name location : string) (silent : bool) : M unit :=
  tapObj ← buildTapObj silent name location;
  match tapObj with
  | Some t => addTapLink name t
  | None =>
      if negb silent
      then (emit (LogWarn "Tap link canceled!");; emit LogEmpty)
      else mret tt
  end.

End Link.

Section FindTask.
Context `{Collaborators}.

(** The body of the [try] of [getCustomTasks], up to the merge: the
    module is loaded and, when it is a function, called with [args]. *)
Definition loadTasks (args : LoaderArgs) (taskFile : string) : fault + Tasks :=
  match require taskFile with
  | inl err => inl err
  | inr (StaticTasks m) => inr m
  | inr (TaskFactory f) => f args
  end.

(** findTask.js, lines 22-41, for a module that throws an [Error] if it
    throws ([Live.getCustomTasks] is the general case).
    [{ ...args.tasks, ...tasks }] lets the later spread win, which is the
    left-biased union with the loaded tasks on the left. *)
Definition getCustomTasks (args : LoaderArgs) (taskFile : string) : M Tasks :=
  match loadTasks args taskFile with
  | inr tasks => mret (tasks ∪ la_tasks args)
  | inl err =>
      emit LogEmpty;;
      emit (LogWarn ("Error loading custom tasks from path " +:+ taskFile));;
      emit (LogError (message err));;
      emit LogEmpty;;
      exit 1
  end.

(** findTask.js, lines 61-68: the task set the rerouted lookup uses.  The
    module is handed the values the config and the array [options] hold
    ([Live.allTasksFor] hands over the objects). *)
Definition allTasksFor (tapObj : TapObj) (c : GlobalConfig) (tasks : Tasks)
    (command : string) (options : ref) : M Tasks :=
  match tap_tasks tapObj with
  | None => mret tasks
  | Some taskFile =>
      if negb (truthy taskFile) then mret tasks
      else
        opts ← readArray options;
        getCustomTasks (mkLoaderArgs c tasks command opts) taskFile
  end.

(** [getTask(tasks, name, ...options)] called from [from]: the spread
    hands over the elements, the rest parameter is a fresh array, and so
    is the [options] array of the object returned. *)
Definition callGetTask (from : site) (tasks : Tasks) (name : string)
    (options : ref) : M TaskData :=
  vals ← readArray options;
  emit (TaskLookup from name);;
  r ← alloc (getTask tasks name vals).2;
  mret (mkTaskData (getTask tasks name vals).1 r None).

(** findTask.js, lines 70-95: the reroute to the [tap] task, for a link
    whose path is [tapPath]. *)
Definition reroute (tapObj : TapObj) (tapPath : string) (c : GlobalConfig)
    (tasks : Tasks) (command : string) (options : ref) : M TaskData :=
  allTasks ← allTasksFor tapObj c tasks command options;
  vals ← readArray options;
  options' ← alloc vals;
  taskData ← callGetTask ViaTap allTasks "tap" options';
  opts ← readArray (td_options taskData);
  params ← lift (parseArgs (td_task taskData) opts command {["tap" := command]} c);
  let taskData := mkTaskData (td_task taskData) (td_options taskData) (Some params) in
  cur ← readArray (td_options taskData);
  writeArray (td_options taskData)
    (splice_insert (Z.of_nat (length cur) - 1) ("tap=" +:+ command) cur);;
  if negb (from_option task_inject false (td_task taskData))
  then mret taskData
  else lift (injectService taskData command tapPath).

(** findTask.js, lines 53-96; [None] is the [false] it returns. *)
Definition checkLinkedTaps (tasks : Tasks) (command : string) (options : ref)
    : M (option TaskData) :=
  c ← getConfig;
  emit (LinkLookup command);;
  match getTapLink c command with
  | None => mret None
  | Some tapObj =>
      match tap_path tapObj with
      | None => mret None
      | Some tapPath =>
          if negb (truthy tapPath) then mret None
          else
            taskData ← reroute tapObj tapPath c tasks command options;
            mret (Some taskData)
      end
  end.

(** findTask.js, lines 116-124, on the task data found. *)
Definition validated (foundTask : TaskData) (options : ref) : M resolved :=
  let taskData := match td_task foundTask with
                  | Some _ => Some foundTask
                  | None => None
                  end in
  opts ← readArray options;
  valid ← lift (validateTask (taskData ≫= td_task) (hasHelpArg (last_elem opts)));
  mret (if valid : bool
        then from_option Resolved EmptyObject taskData
        else Falsy).

(** The lookup of [command] itself in the base tasks, then validation. *)
Definition directLookup (tasks : Tasks) (command : string) (options : ref)
    : M resolved :=
  foundTask ← callGetTask Direct tasks command options;
  validated foundTask options.

(** findTask.js, lines 108-126. *)
Definition findTask (tasks : Tasks) (command : string) (options : ref) : M resolved :=
  tapTaskData ← checkLinkedTaps tasks command options;
  match tapTaskData with
  | Some foundTask => validated foundTask options
  | None => directLookup tasks command options
  end.

End FindTask.

(** ** Concrete collaborators for the scenarios *)

Module Scenario.

(** Modelled from the spec: [getTask] (utils/task/getTask) is missing; per
    the spec the lookup is by name in the task set, "passing through the
    original option tokens". *)
Definition getTask (tasks : Tasks) (name : string) (options : list string)
    : option TaskDef * list string :=
  (tasks !! name, options).

(** Modelled from the spec: [parseArgs] (KegUtils/helpers/parseArgs) is
    missing; per the spec the call injects one parameter, [tap = command],
    and the parameters returned include it. *)
Definition parseArgs (task : option TaskDef) (options : list string)
    (command : string) (params : Params) (c : GlobalConfig) : fault + Params :=
  inr params.

(** Modelled from the spec: [validateTask] (utils/task/validateTask) is
    missing; per the spec it "fails (returns falsy, non-fatal) when no task
    object is present". *)
Definition validateTask (task : option TaskDef) (hasHelp : bool) : fault + bool :=
  inr (bool_decide (is_Some task)).

(** Modelled from the spec: [hasHelpArg] (KegUtils/helpers/hasHelpArg) is
    missing; it recognises a help-flag token. *)
Definition hasHelpArg (arg : option string) : bool :=
  match arg with
  | Some a => bool_decide (a ∈ ["help"; "-h"; "--help"])
  | None => false
  end.

(** Modelled from the spec: [injectService] (utils/services/injectService)
    is missing; per the spec it maps the invocation to an invocation, here
    the same one. *)
Definition injectService (td : TaskData) (app injectPath : string)
    : fault + TaskData :=
  inr td.

(** [path.join] on segments that need no normalising: they are joined by
    [/], and the empty result is [.] as in Node. *)
Definition pathJoin (segments : list string) : string :=
  let joined := match segments with
                | [] => ""
                | s :: rest => foldl (λ acc x, acc +:+ "/" +:+ x) s rest
                end in
  if truthy joined then joined else ".".

(** A world given by the operator's answer, the [tasks] folders on disk,
    the files present and the modules that can be loaded. *)
Definition world (answer : bool) (folders : string → list string)
    (files : string → bool) (modules : string → fault + loaded) : Collaborators :=
  Build_Collaborators (λ _, answer) (λ dir _, folders dir) files pathJoin modules
    getTask parseArgs injectService validateTask hasHelpArg.

Definition noFolders (dir : string) : list string := [].
Definition noFiles (file : string) : bool := false.
Definition noModules (file : string) : fault + loaded :=
  inl (Fault ("Cannot find module '" +:+ file +:+ "'")).

(** The built-in tasks of the scenarios. *)
Definition tapTask : TaskDef := mkTask "tap" [] false.
Definition buildTask : TaskDef := mkTask "build" [] false.
Definition builtins : Tasks := {["tap" := tapTask; "build" := buildTask]}.

(** A store with the given tap links and a single array, the caller's
    options, at reference 0. *)
Definition start (links : gmap string TapObj) (options : list string) : state :=
  mkState (mkConfig (Some links)) (mkConfig (Some links)) [options] [].

End Scenario.

(** The contents of the option array of a resolution's result. *)
Definition resolvedOptions (r : outcome resolved * state) : option (list string) :=
  match r.1 with
  | Ret (Resolved td) => Some (contents (td_options td) r.2)
  | _ => None
  end.

(** The events a run added to the trace. *)
Definition newEvents (st st' : state) : list event :=
  drop (length (log st)) (log st').

(** The same store with [evs] appended to the trace. *)
Definition logged (evs : list event) (st : state) : state :=
  mkState (config st) (disk st) (arrays st) (log st ++ evs).

(** The same store under another global config. *)
Definition withConfig (c : GlobalConfig) (st : state) : state :=
  mkState c (disk st) (arrays st) (log st).

(** The global config without the link of [name]. *)
Definition unlink (name : string) (c : GlobalConfig) : GlobalConfig :=
  mkConfig (delete name <$> tapLinks c).

(** The path a command is linked to, if any. *)
Definition linkedPath (c : GlobalConfig) (command : string) : option string :=
  getTapLink c command ≫= tap_path.

(** [item] placed just before the last element of [l]; alone when [l]
    is empty. *)
Definition beforeLast (item : string) (l : list string) : list string :=
  take (length l - 1)%nat l ++ item :: drop (length l - 1)%nat l.

(** The store after [ext] was allocated and [evs] logged. *)
Definition grown (ext : list (list string)) (evs : list event) (st : state) : state :=
  mkState (config st) (disk st) (arrays st ++ ext) (log st ++ evs).

(** The trace of a failed load of [taskFile]. *)
Definition loadFailure (taskFile : string) (err : fault) : list event :=
  [LogEmpty; LogWarn ("Error loading custom tasks from path " +:+ taskFile);
   LogError (message err); LogEmpty].

(** The operator was asked between [st] and [st'] and answered no. *)
Definition declined (st st' : state) : Prop :=
  ∃ msg, Asked msg false ∈ newEvents st st'.

(** Events among which there is neither a save nor a prompt. *)
Definition quiet (evs : list event) : Prop :=
  ∀ e, e ∈ evs → e ≠ Saved ∧ ∀ msg answer, e ≠ Asked msg answer.

Module LinkScenario.
Import Scenario.

(** Nothing on disk, nothing to load; the operator answers [answer]. *)
Definition bare (answer : bool) : Collaborators :=
  world answer noFolders noFiles noModules.

(** Every tap has a [tasks] folder, none has an index file in it. *)
Definition folderOnly (answer : bool) : Collaborators :=
  world answer (λ dir, [dir +:+ "/tasks"]) noFiles noModules.

(** The link [x => /a] of the spec's scenario. *)
Definition linkedA : state := start {["x" := mkTapObj (Some "/a") None]} [].

(** The same link, registered when [/a] still had its task index. *)
Definition linkedWithTasks : state :=
  start {["x" := mkTapObj (Some "/a") (Some "/a/tasks/index.js")]} [].

(** No link at all. *)
Definition unlinked : state := start ∅ [].
End LinkScenario.

Module ResolveScenario.
Import Scenario.

(** No prompt answered yes, nothing on disk, no module to load. *)
Definition plain : Collaborators := world false noFolders noFiles noModules.

(** The task index of [mytap]. *)
Definition indexFile : string := "/repos/mytap/tasks/index.js".

(** Loading the task index throws. *)
Definition brokenModule : Collaborators :=
  world false noFolders noFiles (λ _, inl (Fault "Unexpected token")).

(** The task index defines its own [tap] task and a [deploy] task. *)
Definition customTap : TaskDef := mkTask "tap" ["t"] false.
Definition custom : Tasks :=
  {["tap" := customTap; "deploy" := mkTask "deploy" [] false]}.
Definition customModule : Collaborators :=
  world false noFolders noFiles (λ _, inr (StaticTasks custom)).

(** [tapLinks = { "mytap": { path: "/repos/mytap" } }]. *)
Definition mytap : TapObj := mkTapObj (Some "/repos/mytap") None.
Definition mytapLinks : gmap string TapObj := {["mytap" := mytap]}.

(** The same link with its task index. *)
Definition mytapWithTasks : TapObj :=
  mkTapObj (Some "/repos/mytap") (Some indexFile).

(** The caller's options are the array at reference 0. *)
Definition verbose : state := start mytapLinks ["--verbose"].
Definition verboseHelp : state := start mytapLinks ["--verbose"; "--help"].
Definition withTasks : state := start {["mytap" := mytapWithTasks]} ["--verbose"].

(** A tap linked under the name of the built-in task [build]. *)
Definition buildTap : TapObj := mkTapObj (Some "/repos/build") None.
Definition buildLinked : state := start {["build" := buildTap]} ["--verbose"].

(** A link of that name without a path. *)
Definition pathless : TapObj := mkTapObj None None.
Definition buildPathless : state := start {["build" := pathless]} ["--verbose"].
End ResolveScenario.

(** The same collaborators with another operator at the prompt. *)
Definition answering (answers : string → bool) (W : Collaborators) : Collaborators :=
  Build_Collaborators answers (@findPathByName W) (@checkPathExists W) (@pathJoin W)
    (@require W) (@getTask W) (@parseArgs W) (@injectService W) (@validateTask W)
    (@hasHelpArg W).

(** ** Names that are one own key

    [get] splits the path it is given at every dot and reads inherited
    members too.  [getTapLink] is the lookup it makes for a name that is
    one own key of the container of the links: a name without a dot that
    is not a member every object inherits. *)

Definition inheritedMembers : list string :=
  ["constructor"; "hasOwnProperty"; "isPrototypeOf"; "propertyIsEnumerable";
   "toLocaleString"; "toString"; "valueOf"; "__proto__"; "__defineGetter__";
   "__defineSetter__"; "__lookupGetter__"; "__lookupSetter__"].

Definition plainKey (name : string) : bool :=
  bool_decide (String.index 0 "." name = None)
  && bool_decide (name ∉ inheritedMembers).

(** ** Results written out

    What a resolution comes to, in terms of the collaborators alone; the
    theorems compare [findTask] with these. *)

Section Results.
Context `{Collaborators}.

(** The answer for the task data [found], [opts] being the caller's
    options: [validateTask] is asked about the task with the help flag of
    the last option. *)
Definition validatedResult (found : TaskData) (opts : list string) (st : state)
    : outcome resolved * state :=
  match validateTask (td_task found) (hasHelpArg (last_elem opts)) with
  | inl e => (Throw e, st)
  | inr valid =>
      (Ret (if valid
            then match td_task found with
                 | Some _ => Resolved found
                 | None => EmptyObject
                 end
            else Falsy), st)
  end.

(** The command looked up by its own name in [tasks]. *)
Definition directResult (tasks : Tasks) (command : string) (opts : list string)
    (st : state) : outcome resolved * state :=
  let found := getTask tasks command opts in
  validatedResult (mkTaskData found.1 (length (arrays st)) None) opts
    (grown [found.2] [LinkLookup command; TaskLookup Direct command] st).

(** The command rerouted to the task [tap] of [allTasks], for a link whose
    path is [tapPath]. *)
Definition tapResult (allTasks : Tasks) (tapPath command : string)
    (opts : list string) (st : state) : outcome resolved * state :=
  let found := getTask allTasks "tap" opts in
  let seen := [LinkLookup command; TaskLookup ViaTap "tap"] in
  match parseArgs found.1 found.2 command {["tap" := command]} (config st) with
  | inl e => (Throw e, grown [opts; found.2] seen st)
  | inr params =>
      let td := mkTaskData found.1 (S (length (arrays st))) (Some params) in
      let st' := grown [opts; beforeLast ("tap=" +:+ command) found.2] seen st in
      if from_option task_inject false found.1
      then match injectService td command tapPath with
           | inl e => (Throw e, st')
           | inr td' => validatedResult td' opts st'
           end
      else validatedResult td opts st'
  end.

End Results.

(** ** Task modules that act on what they are handed

    [checkLinkedTaps] calls the function of a tap's task module with the
    caller's option array, the global config and the task set themselves,
    not with copies, and it does so before it copies the options.  A module
    may therefore change them; and what a module throws need not be an
    [Error].  The resolver is embedded once more for such modules: [Live]
    differs from the embedding above in the module it loads, and agrees
    with it for the modules of [pureModules].

    A module is code of the tap.  What it does besides (what it logs, or
    whether it ends the process itself) is not the resolver's doing and is
    not recorded: the trace holds the steps of the resolver.  The link
    [tapObj] is taken as it was read before the module ran. *)

(** What a module throws, as the [catch] of [getCustomTasks] sees it:
    [null] or [undefined], as [Promise.reject()] gives, or any other
    value.  Of the latter the handler reads the [message], a text for an
    [Error]; [message err] is what [Logger.error] prints for it. *)
Inductive thrown : Type :=
  | ThrownError (err : fault)
  | ThrownNullish.

(** The objects of [args] as the function of a module leaves them. *)
Record Handed : Type := mkHanded {
  h_options : list string;
  h_globalConfig : GlobalConfig;
  h_tasks : Tasks;
}.

(** A function that leaves them alone. *)
Definition untouched (args : LoaderArgs) : Handed :=
  mkHanded (la_options args) (la_globalConfig args) (la_tasks args).

(** What [require(taskFile)] evaluates to: a task mapping, or a function
    which, called with [args], leaves the objects of [args] in some state
    and returns a task mapping or throws. *)
Inductive liveLoaded : Type :=
  | LiveTasks (m : Tasks)
  | LiveFactory (f : LoaderArgs → Handed * (thrown + Tasks)).

Class LiveModules : Type := {
  (** [require(file)]: the module's value, or what loading it throws. *)
  liveRequire : string → thrown + liveLoaded;
}.

(** The [TypeError] raised by reading [message] of [null] or [undefined];
    the text is the engine's. *)
Definition typeError : fault :=
  Fault "Cannot read properties of undefined (reading 'message')".

Module Live.
Section Resolve.
Context `{Collaborators} `{LiveModules}.

(** findTask.js, lines 32-39: the [catch] of [getCustomTasks].  Reading
    [err.message] of a nullish value throws inside the handler, after the
    first two lines were logged. *)
Definition caught (taskFile : string) (t : thrown) : M Tasks :=
  emit LogEmpty;;
  emit (LogWarn ("Error loading custom tasks from path " +:+ taskFile));;
  match t with
  | ThrownError err =>
      emit (LogError (message err));;
      emit LogEmpty;;
      exit 1
  | ThrownNullish => throw typeError
  end.

(** findTask.js, lines 22-41, [args] holding the config of the store, the
    task set and the array [options] itself. *)
Definition getCustomTasks (tasks : Tasks) (command : string) (options : ref)
    (taskFile : string) : M Tasks :=
  c ← getConfig;
  opts ← readArray options;
  match liveRequire taskFile with
  | inl t => caught taskFile t
  | inr (LiveTasks m) => mret (m ∪ tasks)
  | inr (LiveFactory f) =>
      let run := f (mkLoaderArgs c tasks command opts) in
      writeArray options (h_options run.1);;
      setConfig (h_globalConfig run.1);;
      match run.2 with
      | inr custom => mret (custom ∪ h_tasks run.1)
      | inl t => caught taskFile t
      end
  end.

(** findTask.js, lines 61-68. *)
Definition allTasksFor (tapObj : TapObj) (tasks : Tasks) (command : string)
    (options : ref) : M Tasks :=
  match tap_tasks tapObj with
  | None => mret tasks
  | Some taskFile =>
      if negb (truthy taskFile) then mret tasks
      else getCustomTasks tasks command options taskFile
  end.

(** findTask.js, lines 70-95: the options are copied and the arguments
    parsed after the module ran, from the array and the config as it left
    them. *)
Definition finish (tapPath : string) (allTasks : Tasks) (command : string)
    (options : ref) : M TaskData :=
  vals ← readArray options;
  options' ← alloc vals;
  taskData ← callGetTask ViaTap allTasks "tap" options';
  opts ← readArray (td_options taskData);
  c ← getConfig;
  params ← lift (parseArgs (td_task taskData) opts command {["tap" := command]} c);
  let taskData := mkTaskData (td_task taskData) (td_options taskData) (Some params) in
  cur ← readArray (td_options taskData);
  writeArray (td_options taskData)
    (splice_insert (Z.of_nat (length cur) - 1) ("tap=" +:+ command) cur);;
  if negb (from_option task_inject false (td_task taskData))
  then mret taskData
  else lift (injectService taskData command tapPath).

(** findTask.js, lines 61-95. *)
Definition reroute (tapObj : TapObj) (tapPath : string) (tasks : Tasks)
    (command : string) (options : ref) : M TaskData :=
  allTasks ← allTasksFor tapObj tasks command options;
  finish tapPath allTasks command options.

(** findTask.js, lines 53-96.  The link is read before the module runs. *)
Definition checkLinkedTaps (tasks : Tasks) (command : string) (options : ref)
    : M (option TaskData) :=
  c ← getConfig;
  emit (LinkLookup command);;
  match getTapLink c command with
  | None => mret None
  | Some tapObj =>
      match tap_path tapObj with
      | None => mret None
      | Some tapPath =>
          if negb (truthy tapPath) then mret None
          else
            taskData ← reroute tapObj tapPath tasks command options;
            mret (Some taskData)
      end
  end.

(** findTask.js, lines 108-126. *)
Definition findTask (tasks : Tasks) (command : string) (options : ref) : M resolved :=
  tapTaskData ← checkLinkedTaps tasks command options;
  match tapTaskData with
  | Some foundTask => validated foundTask options
  | None => directLookup tasks command options
  end.

(** What the function of the task module of [tapObj], if there is one to
    call, leaves of the objects it is handed in the store [st]. *)
Definition called (tapObj : TapObj) (tasks : Tasks) (command : string)
    (options : ref) (st : state) : option Handed :=
  match tap_tasks tapObj with
  | Some taskFile =>
      if truthy taskFile
      then match liveRequire taskFile with
           | inr (LiveFactory f) =>
               Some (f (mkLoaderArgs (config st) tasks command (contents options st))).1
           | _ => None
           end
      else None
  | None => None
  end.

(** The same for the resolution of [command]: a function is called only
    for a command linked with a path. *)
Definition handed (tasks : Tasks) (command : string) (options : ref) (st : state)
    : option Handed :=
  match getTapLink (config st) command with
  | Some tapObj =>
      if truthy_opt (tap_path tapObj) then called tapObj tasks command options st
      else None
  | None => None
  end.

End Resolve.

(** The store once a module's function left [h] behind. *)
Definition left (h : option Handed) (options : ref) (st : state) : state :=
  match h with
  | Some h =>
      mkState (h_globalConfig h) (disk st) (<[options := h_options h]> (arrays st))
        (log st)
  | None => st
  end.

End Live.

(** The modules of the embedding above: they throw errors with a message
    and leave what they are handed alone. *)
Definition pureModules (W : Collaborators) : LiveModules :=
  Build_LiveModules (λ file,
    match @require W file with
    | inl err => inl (ThrownError err)
    | inr (StaticTasks m) => inr (LiveTasks m)
    | inr (TaskFactory f) =>
        inr (LiveFactory (λ args,
               (untouched args,
                match f args with
                | inl err => inl (ThrownError err)
                | inr custom => inr custom
                end)))
    end).

Module LiveScenario.
Import Scenario.

(** The task module pushes a flag onto the options it is handed and
    defines no task. *)
Definition pushing : LiveModules :=
  Build_LiveModules (λ _,
    inr (LiveFactory (λ args,
           (mkHanded (la_options args ++ ["--force"]) (la_globalConfig args)
              (la_tasks args),
            inr ∅)))).

(** The task module rejects without a value. *)
Definition rejecting : LiveModules :=
  Build_LiveModules (λ _, inl ThrownNullish).

(** The task module removes every link from the config it is handed, then
    throws an error. *)
Definition unlinkingThenThrowing : LiveModules :=
  Build_LiveModules (λ _,
    inr (LiveFactory (λ args,
           (mkHanded (la_options args) (mkConfig (Some ∅)) (la_tasks args),
            inl (ThrownError (Fault "Unexpected token")))))).

(** Loading the task module throws an error. *)
Definition broken : LiveModules :=
  Build_LiveModules (λ _, inl (ThrownError (Fault "Unexpected token"))).

End LiveScenario.

(** ** The webpack config of a tap (second part of findTask.js)

    The file goes on, from line 131, with the webpack config built for a
    tap: the aliases that make every repo resolve its core dependencies in
    keg-core's [node_modules], and the changes made to the expo config. *)

Module Webpack.

(** What the module reads from its environment: Node's [path.join] and
    [path.resolve], the roots of the keg and of the tap, [NODE_ENV], and
    the babel config put into the rule. *)
Class Environment (BabelConfig : Type) : Type := {
  join : list string → string;
  resolve : list string → string;
  kegPath : string;
  tapPath : string;
  NODE_ENV : option string;
  babelLoader : string;
  babelConfig : BabelConfig;
}.

(** A rule of [config.module.rules], with the properties the new rule sets. *)
Record Rule (BabelConfig : Type) : Type := mkRule {
  rule_test : string;
  rule_include : list string;
  rule_exclude : string;
  rule_loader : string;
  rule_options : BabelConfig;
}.
Arguments mkRule {BabelConfig}.
Arguments rule_include {BabelConfig}.

(** The part of the webpack config the module touches; [resolve.modules]
    and [resolve.alias] may be missing. *)
Record Config (BabelConfig : Type) : Type := mkWebpack {
  mode : option string;
  rules : list (Rule BabelConfig);
  globalObject : option string;
  sourceMapFilename : option string;
  resolveModules : option (list string);
  resolveAlias : option (gmap string string);
}.
Arguments mkWebpack {BabelConfig}.
Arguments mode {BabelConfig}.
Arguments rules {BabelConfig}.
Arguments globalObject {BabelConfig}.
Arguments sourceMapFilename {BabelConfig}.
Arguments resolveModules {BabelConfig}.
Arguments resolveAlias {BabelConfig}.

(** findTask.js, lines 143-152, in the order of [Object.entries]. *)
Definition resolveCoreAlias : list (string * string) :=
  [("react", "react");
   ("react-native", "react-native-web");
   ("react-native-web", "react-native-web");
   ("@expo/vector-icons", "@expo/vector-icons");
   ("react-native-vector-icons", "react-native-vector-icons");
   ("@simpleviewinc/re-theme", "@simpleviewinc/re-theme/build/esm/reTheme.js");
   ("@simpleviewinc/keg-components",
    "@simpleviewinc/keg-components/build/esm/kegComponents.native.js")].

Section Build.
Context {BabelConfig : Type} `{Environment BabelConfig}.

(** findTask.js, lines 158-167; the default [{}] stands in for a missing
    [curAlias], and the entries are written into [curAlias] itself. *)
Definition buildResolveCoreAlias (curAlias : option (gmap string string))
    : gmap string string :=
  foldl (λ allAlias entry,
           <[entry.1 := join [kegPath; "node_modules"; entry.2]]> allAlias)
    (default ∅ curAlias) resolveCoreAlias.

(** findTask.js, lines 184-190: the rule put in front of the others. *)
Definition babelRule : Rule BabelConfig :=
  mkRule "\.js?$" [resolve [tapPath]] "node_modules\/(?!(keg-core)\/).*"
    babelLoader babelConfig.

(** findTask.js, lines 170-216, on the config [getExpoConfig] returned. *)
Definition webpackConfig (config : Config BabelConfig) : Config BabelConfig :=
  mkWebpack
    (Some (match NODE_ENV with
           | Some env => if truthy env then env else "development"
           | None => "development"
           end))
    (babelRule :: rules config)
    (Some "this")
    (Some "[file].map[query]")
    (Some (default [] (resolveModules config)
           ++ ["node_modules"; resolve [tapPath; "node_modules"];
               resolve [kegPath; "node_modules"]]))
    (Some (buildResolveCoreAlias (resolveAlias config))).

End Build.

(** An environment for the examples: segments joined by [/]. *)
Definition exampleEnv : Environment unit :=
  Build_Environment unit Scenario.pathJoin Scenario.pathJoin "/keg/keg-core" "/taps/mine"
    None "babel-loader" tt.

(** The same with [NODE_ENV=production]. *)
Definition productionEnv : Environment unit :=
  Build_Environment unit Scenario.pathJoin Scenario.pathJoin "/keg/keg-core" "/taps/mine"
    (Some "production") "babel-loader" tt.

End Webpack.

(** ** The docker commands (libs/docker/commands.js)

    The functions build a command line, run it and hand the result to
    helpers.  The helpers ([./helpers], [KegProc], [jsutils]) are
    parameters; the store holds the option arrays, which [dynamicCmd]
    updates in place, and the trace of what was run and logged.  Strings
    are byte strings: [trim] strips the white space below 128, the six
    characters tab, line feed, vertical tab, form feed, carriage return
    and space. *)

Module Docker.

Fixpoint trimStart (s : string) : string :=
  match s with
  | EmptyString => EmptyString
  | String a s' => if Ascii.is_space a then trimStart s' else s
  end.

Fixpoint trimEnd (s : string) : string :=
  match s with
  | EmptyString => EmptyString
  | String a s' =>
      match trimEnd s' with
      | EmptyString => if Ascii.is_space a then EmptyString else String a EmptyString
      | t => String a t
      end
  end.

(** [s.trim()]. *)
Definition trim (s : string) : string := trimEnd (trimStart s).

(** A value of [opts]: missing, one string, or an array. *)
Inductive Opts : Type :=
  | NoOpts
  | OneOpt (s : string)
  | OptArray (r : ref).

Inductive event : Type :=
  | Executed (cmd : string)
  | Spawned (cmd : string)
  | SpacedMsg (title message : string)
  | Success (message : string).

Global Instance docker_event_eq_dec : EqDecision event.
Proof. solve_decision. Defined.

Record store : Type := mkStore {
  arrays : list (list string);
  trace : list event;
}.

Definition D (A : Type) : Type := store → outcome A * store.

Definition bindD {A B : Type} (m : D A) (f : A → D B) : D B := λ st,
  match m st with
  | (Ret a, st') => f a st'
  | (Exit c, st') => (Exit c, st')
  | (Throw e, st') => (Throw e, st')
  end.

Definition record (e : event) (st : store) : store :=
  mkStore (arrays st) (trace st ++ [e]).

Definition read (r : ref) (st : store) : list string := default [] (arrays st !! r).

(** The helpers, as functions of their arguments: [executeCmd] and
    [spawnProc] give the [error] and the [data] of the run, the others a
    value, unless they throw or end the process. *)
Class Api (Value : Type) : Type := {
  executeCmd : string → option string * option string;
  spawnProc : string → option string → option string → option string * option string;
  apiError : string → option Value → bool → outcome Value;
  apiSuccess : option string → string → outcome Value;
  cmdSuccess : option string → Value → outcome Value;
  noItemError : string → outcome Value;
  (** [toStr(opts)] for [opts] that is not an array. *)
  toStr : option string → string;
}.

(** The argument object of [dockerCli]; [format] is [""] when missing. *)
Record CliArgs (Value : Type) : Type := mkCliArgs {
  opts : Opts;
  errResponse : option Value;
  log : bool;
  skipError : bool;
  format : string;
  force : bool;
}.
Arguments mkCliArgs {Value}.
Arguments opts {Value}.
Arguments errResponse {Value}.
Arguments log {Value}.
Arguments skipError {Value}.
Arguments format {Value}.
Arguments force {Value}.

(** The double quote, for the format flag. *)
Definition quote : string := String (Ascii.ascii_of_nat 34) EmptyString.

(** [--format "{{json .}}"]. *)
Definition jsonFormat : string :=
  "--format " +:+ quote +:+ "{{json .}}" +:+ quote.

Section Commands.
Context {Value : Type} `{Api Value}.

(** commands.js, lines 26-30: the command line. *)
Definition cmdToRun (args : CliArgs Value) (st : store) : string :=
  let options := match opts args with
                 | OptArray r => trim (String.concat " " (read r st))
                 | OneOpt s => toStr (Some s)
                 | NoOpts => toStr None
                 end in
  let useFormat := if bool_decide (format args = "json") then jsonFormat
                   else format args in
  let useForce := if force args then "--force" else "" in
  trim ("docker " +:+ options +:+ " " +:+ useForce +:+ " " +:+ useFormat).

(** commands.js, lines 25-40. *)
Definition dockerCli (args : CliArgs Value) : D Value := λ st,
  let cmd := cmdToRun args st in
  let st1 := if log args then record (SpacedMsg "  Running command: " cmd) st
             else st in
  let st2 := record (Executed cmd) st1 in
  if truthy_opt (executeCmd cmd).1
  then (apiError (default "" (executeCmd cmd).1) (errResponse args) (skipError args),
        st2)
  else (apiSuccess (executeCmd cmd).2 (format args), st2).

(** commands.js, line 52: the options as an array, the caller's own when
    it passed one. *)
Definition optsArray (o : Opts) (st : store) : ref * store :=
  match o with
  | OptArray r => (r, st)
  | OneOpt s =>
      (length (arrays st),
       mkStore (arrays st ++ [if truthy s then [s] else []]) (trace st))
  | NoOpts => (length (arrays st), mkStore (arrays st ++ [[]]) (trace st))
  end.

(** commands.js, line 55: [opts[0] !== type && opts.unshift(type)]. *)
Definition ensureType (r : ref) (type : string) (st : store) : store :=
  if bool_decide (head (read r st) = Some type) then st
  else mkStore (<[r := type :: read r st]> (arrays st)) (trace st).

(** commands.js, lines 50-62. *)
Definition dynamicCmd (args : CliArgs Value) (type : string) : D Value := λ st,
  let (r, st1) := optsArray (opts args) st in
  let st2 := ensureType r type st1 in
  bindD
    (dockerCli (mkCliArgs (OptArray r) (errResponse args) (log args)
                  (skipError args) (format args) (force args)))
    (λ res st3, (cmdSuccess (read r st3 !! 1%nat) res, st3))
    st2.

(** commands.js, lines 72-80; [item] may be missing, [type] is [""] when
    missing. *)
Definition remove (item : option string) (force skipError : bool) (type : string)
    : D Value :=
  match item with
  | Some i =>
      if truthy i
      then dockerCli (mkCliArgs (OneOpt (trim (type +:+ " rm " +:+ i))) None false
                        skipError "" force)
      else λ st, (noItemError "docker.remove", st)
  | None => λ st, (noItemError "docker.remove", st)
  end.

(** commands.js, line 161: the command [raw] spawns. *)
Definition rawCommand (cmd : string) : string :=
  if String.prefix "docker" (trim cmd) then cmd else "docker " +:+ cmd.

(** commands.js, lines 158-171. *)
Definition raw (cmd : string) (args loc : option string) : D (option string) := λ st,
  let run := rawCommand cmd in
  let st1 := record (Spawned run) st in
  let error := (spawnProc run args loc).1 in
  let data := (spawnProc run args loc).2 in
  if truthy_opt error && negb (truthy_opt data)
  then match apiError (default "" error) None false with
       | Ret _ => (Ret data, st1)
       | Exit code => (Exit code, st1)
       | Throw e => (Throw e, st1)
       end
  else (Ret data, record (Success "  Finished running Docker CLI command!") st1).

End Commands.

(** Helpers for the examples: every run succeeds with the output [ok]. *)
Definition exampleApi : Api string :=
  Build_Api string (λ _, (None, Some "ok")) (λ _ _ _, (None, Some "ok"))
    (λ error _ _, Throw (Fault error)) (λ data _, Ret (default "" data))
    (λ _ res, Ret res) (λ name, Throw (Fault name)) (default "").

End Docker.

(** * Properties *)

(** ** Basic facts *)

Lemma truthy_true (s : string) : truthy s = true ↔ s ≠ "".
Proof. unfold truthy. by rewrite bool_decide_eq_true. Qed.

Lemma logged_nil (st : state) : logged [] st = st.
Proof. destruct st. unfold logged. simpl. by rewrite app_nil_r. Qed.

Lemma newEvents_logged (evs : list event) (st : state) :
  newEvents st (logged evs st) = evs.
Proof. unfold newEvents, logged. simpl. by rewrite drop_app_length. Qed.

Lemma splice_insert_before_last (item : string) (l : list string) :
  splice_insert (Z.of_nat (length l) - 1) item l = beforeLast item l.
Proof.
  unfold splice_insert, beforeLast, splice_index.
  destruct l as [|x l]; [done|].
  replace (Z.of_nat (length (x :: l)) - 1 <? 0) with false
    by (symmetry; apply Z.ltb_ge; simpl; lia).
  replace (Z.to_nat (Z.min (Z.of_nat (length (x :: l)) - 1) (Z.of_nat (length (x :: l)))))
    with (length (x :: l) - 1)%nat by (simpl; lia).
  done.
Qed.

Lemma beforeLast_snoc (item x : string) (init : list string) :
  beforeLast item (init ++ [x]) = init ++ [item; x].
Proof.
  unfold beforeLast. rewrite length_app. simpl.
  replace (length init + 1 - 1)%nat with (length init) by lia.
  by rewrite take_app_length, drop_app_length.
Qed.

Lemma last_beforeLast (item : string) (l : list string) :
  l ≠ [] → last (beforeLast item l) = last l.
Proof.
  intros Hl. destruct (decide (l = [])) as [|_]; [done|].
  induction l as [|x l _] using rev_ind; [done|].
  rewrite beforeLast_snoc, !last_app. done.
Qed.

(** Unfolding of the monad's operations. *)
Ltac unfold_monad :=
  unfold mbind, M_bind, mret, M_ret, lift, throw, exit, emit, getConfig,
    setConfig, saveConfig, alloc, readArray, writeArray.

Lemma bind_run {A B : Type} (m : M A) (f : A → M B) (st : state) :
  (m ≫= f) st =
  match m st with
  | (Ret a, st') => f a st'
  | (Exit c, st') => (Exit c, st')
  | (Throw e, st') => (Throw e, st')
  end.
Proof. done. Qed.

Lemma bind_ret {A B : Type} (m : M A) (f : A → M B) (st st' : state) (a : A) :
  m st = (Ret a, st') → (m ≫= f) st = f a st'.
Proof. intros Hm. by rewrite bind_run, Hm. Qed.

(** ** Registration of a tap link (link.js) *)

Section LinkFacts.
Context `{Collaborators}.

Lemma checkTapLocation_path (tapObj : TapObj) (location : string) :
  tap_path (checkTapLocation tapObj location) = Some location.
Proof.
  unfold checkTapLocation.
  destruct (negb (truthy_opt (tap_path tapObj))) eqn:Hp; simpl; [done|].
  case_bool_decide; simpl; done.
Qed.

Lemma checkTapLocation_tasks (tapObj : TapObj) (location : string) :
  tap_tasks (checkTapLocation tapObj location) = tap_tasks tapObj.
Proof. unfold checkTapLocation. by case_match. Qed.

(** The overwrite check only ever adds the prompt to the trace. *)
Lemma ensureAddLink_run (currentTap : option TapObj) (name location : string)
    (silent : bool) (st : state) :
  ∃ (b : bool) (evs : list event),
    ensureAddLink currentTap name location silent st = (Ret b, logged evs st)
    ∧ (evs = [] ∨ ∃ msg, evs = [Asked msg b]
                          ∧ is_Some currentTap ∧ location ≠ "" ∧ silent = false).
Proof.
  unfold ensureAddLink, askConfirm.
  destruct (bool_decide (is_Some currentTap)) eqn:Hc; simpl;
    [destruct (truthy location) eqn:Hl; simpl; [destruct silent; simpl|]|].
  - exists false, []. rewrite logged_nil. unfold_monad. eauto.
  - eexists _, [_]. unfold_monad. unfold logged. simpl. split; [done|].
    right. eexists. split; [done|].
    by apply bool_decide_eq_true in Hc; apply truthy_true in Hl.
  - exists true, []. rewrite logged_nil. unfold_monad. eauto.
  - exists true, []. rewrite logged_nil. unfold_monad. eauto.
Qed.

(** The locator returns, having logged at most its warning. *)
Lemma checkCustomTaskFile_run (tapObj : TapObj) (p : string) (st : state) :
  tap_path tapObj = Some p →
  ∃ (r : option string) (evs : list event),
    checkCustomTaskFile tapObj st = (Ret r, logged evs st)
    ∧ (evs = [] ∨
       evs = [LogWarn "Linked tap task folder exists, but index.js file is missing!"]
       ∧ r = None).
Proof.
  intros Hp. unfold checkCustomTaskFile. rewrite Hp.
  destruct (head _) as [foundPath|]; [|exists None, []; rewrite logged_nil; eauto].
  destruct (negb (truthy foundPath)); [exists None, []; rewrite logged_nil; eauto|].
  destruct (negb (checkPathExists _)).
  - eexists None, [_]. unfold_monad. unfold logged. simpl. eauto.
  - eexists (Some _), []. rewrite logged_nil. eauto.
Qed.

Lemma logged_logged (evs1 evs2 : list event) (st : state) :
  logged evs2 (logged evs1 st) = logged (evs1 ++ evs2) st.
Proof. unfold logged. simpl. by rewrite app_assoc. Qed.

(** [buildTapObj] in closed form: it changes nothing but the trace, and
    what it returns is decided by the overwrite check. *)
Lemma buildTapObj_run (silent : bool) (name location : string) (st : state) :
  ∃ (b : bool) (evs1 : list event),
    ensureAddLink (getTapLink (config st) name) name location silent st
      = (Ret b, logged evs1 st)
    ∧ (evs1 = [] ∨ ∃ msg, evs1 = [Asked msg b]
                           ∧ is_Some (getTapLink (config st) name)
                           ∧ location ≠ "" ∧ silent = false)
    ∧ if b
      then ∃ (r : option string) (evs2 : list event),
             checkCustomTaskFile
               (checkTapLocation (spreadTap (getTapLink (config st) name)) location)
               (logged evs1 st) = (Ret r, logged (evs1 ++ evs2) st)
             ∧ (evs2 = [] ∨
                evs2 = [LogWarn "Linked tap task folder exists, but index.js file is missing!"]
                ∧ r = None)
             ∧ buildTapObj silent name location st
               = (Ret (Some (mkTapObj (Some location)
                               (if truthy_opt r then r
                                else getTapLink (config st) name ≫= tap_tasks))),
                  logged (evs1 ++ evs2) st)
      else buildTapObj silent name location st = (Ret None, logged evs1 st).
Proof.
  destruct (ensureAddLink_run (getTapLink (config st) name) name location silent st)
    as (b & evs1 & Hen & Hevs1).
  exists b, evs1. do 2 (split; [done|]).
  unfold buildTapObj. rewrite bind_run. simpl. rewrite (bind_ret _ _ _ _ _ Hen).
  destruct b; simpl; [|done].
  set (tapObj := checkTapLocation _ _).
  destruct (checkCustomTaskFile_run tapObj location (logged evs1 st))
    as (r & evs2 & Hck & Hevs2); [apply checkTapLocation_path|].
  rewrite logged_logged in Hck.
  exists r, evs2. do 2 (split; [done|]).
  rewrite (bind_ret _ _ _ _ _ Hck). unfold mret, M_ret. do 3 f_equal.
  destruct (truthy_opt r); subst tapObj.
  - by rewrite checkTapLocation_path.
  - generalize (checkTapLocation_path (spreadTap (getTapLink (config st) name)) location).
    generalize (checkTapLocation_tasks (spreadTap (getTapLink (config st) name)) location).
    destruct (checkTapLocation _ _) as [p t]. simpl. intros -> ->.
    unfold spreadTap. by destruct (getTapLink _ _).
Qed.

(** The config a registration leaves behind, in memory and on disk. *)
Lemma addTapLink_run (name : string) (tapObj : TapObj) (st : state) :
  let c := mkConfig (Some (<[name := tapObj]> (default ∅ (tapLinks (config st))))) in
  addTapLink name tapObj st
  = (Ret tt,
     mkState c c (arrays st)
       (log st ++ [Saved;
                   LogSuccess ("Successfully linked tap '" +:+ name +:+ "' => '"
                               +:+ default "undefined" (tap_path tapObj) +:+ "'");
                   LogEmpty])).
Proof.
  unfold addTapLink, addGlobalConfigProp. destruct st as [[links] d a l].
  destruct links as [m|]; unfold_monad; simpl; by rewrite <- !app_assoc.
Qed.

End LinkFacts.

Section LinkClaims.
Context `{Collaborators}.

(** C9: whenever [buildTapObj] returns a tap object rather than [false],
    the [path] of that object is the [location] it was called with;
    this holds whatever path was stored before, and for the empty
    location too. *)
Theorem C9_built_path_is_location (silent : bool) (name location : string)
    (st st' : state) (tapObj : TapObj) :
  buildTapObj silent name location st = (Ret (Some tapObj), st') →
  tap_path tapObj = Some location.
Proof.
  destruct (buildTapObj_run silent name location st) as (b & evs1 & _ & _ & Hb).
  destruct b.
  - destruct Hb as (r & evs2 & _ & _ & ->). by intros [= <- _].
  - rewrite Hb. by intros [=].
Qed.

(** C2 (amended): for an existing link and a non-empty new path the
    overwrite check in silent mode returns [false] without asking, and
    with no existing link it returns [true] whatever [silent] is; so a
    registration with [silent = true] and a non-empty location over an
    existing link returns [false] and leaves the whole store, the stored
    link included, as it was. *)
Theorem C2_silent_never_overwrites (name location : string) (cur : TapObj)
    (st : state) :
  getTapLink (config st) name = Some cur →
  location ≠ "" →
  ensureAddLink (Some cur) name location true st = (Ret false, st)
  ∧ (∀ newPath silent st0,
       ensureAddLink None name newPath silent st0 = (Ret true, st0))
  ∧ buildTapObj true name location st = (Ret None, st)
  ∧ linkTap name location true st = (Ret tt, st)
  ∧ getTapLink (config (linkTap name location true st).2) name = Some cur.
Proof.
  intros Hcur Hloc.
  assert (Hen : ensureAddLink (Some cur) name location true st = (Ret false, st)).
  { unfold ensureAddLink. apply truthy_true in Hloc. rewrite Hloc.
    by rewrite bool_decide_eq_true_2 by eauto. }
  assert (Hb : buildTapObj true name location st = (Ret None, st)).
  { unfold buildTapObj. rewrite bind_run. simpl. rewrite Hcur.
    by rewrite (bind_ret _ _ _ _ _ Hen). }
  assert (Hl : linkTap name location true st = (Ret tt, st)).
  { unfold linkTap. by rewrite (bind_ret _ _ _ _ _ Hb). }
  repeat split; try done. by rewrite Hl.
Qed.

(** C3: when a registration over an existing link has the operator
    decline the overwrite, [buildTapObj] returns [false] and [linkTap]
    leaves the global config as it was, in memory and on disk: the link
    keeps its previous value, nothing is saved, and the cancellation is
    logged. *)
Theorem C3_declined_overwrite_aborts (silent : bool) (name location : string)
    (cur : TapObj) (st : state) :
  getTapLink (config st) name = Some cur →
  declined st (buildTapObj silent name location st).2 →
  (buildTapObj silent name location st).1 = Ret None
  ∧ (linkTap name location silent st).1 = Ret tt
  ∧ config (linkTap name location silent st).2 = config st
  ∧ disk (linkTap name location silent st).2 = disk st
  ∧ getTapLink (config (linkTap name location silent st).2) name = Some cur
  ∧ (Saved ∉ newEvents st (linkTap name location silent st).2)
  ∧ LogWarn "Tap link canceled!" ∈ newEvents st (linkTap name location silent st).2.
Proof.
  intros Hcur [msg Hdecl].
  destruct (buildTapObj_run silent name location st) as (b & evs1 & _ & Hevs1 & Hb).
  destruct b.
  - destruct Hb as (r & evs2 & _ & Hevs2 & Hb). rewrite Hb in Hdecl. simpl in Hdecl.
    rewrite newEvents_logged in Hdecl. exfalso.
    apply elem_of_app in Hdecl as [Hin|Hin].
    + destruct Hevs1 as [->|(msg' & -> & _)]; [by apply elem_of_nil in Hin|].
      by apply list_elem_of_singleton in Hin.
    + destruct Hevs2 as [->|[-> _]]; [by apply elem_of_nil in Hin|].
      by apply list_elem_of_singleton in Hin.
  - rewrite Hb in Hdecl. simpl in Hdecl. rewrite newEvents_logged in Hdecl.
    destruct Hevs1 as [->|(msg' & -> & _ & _ & ->)]; [by apply elem_of_nil in Hdecl|].
    unfold linkTap. rewrite (bind_ret _ _ _ _ _ Hb), Hb. simpl.
    unfold_monad. simpl. rewrite Hcur.
    change (mkState (config st) (disk st) (arrays st)
              (((log st ++ [Asked msg' false]) ++ [LogWarn "Tap link canceled!"])
               ++ [LogEmpty]))
      with (logged [LogEmpty] (logged [LogWarn "Tap link canceled!"]
              (logged [Asked msg' false] st))).
    rewrite !logged_logged, newEvents_logged. simpl.
    repeat split; try done.
    + rewrite !elem_of_cons, elem_of_nil. intros [?|[?|[?|[]]]]; discriminate.
    + rewrite !elem_of_cons. by right; left.
Qed.

(** C7 (amended): when the [tasks] folder of a tap exists but holds no
    index file, the locator logs a warning and reports the entry as
    absent, without failing; every registration whose overwrite check
    passes still succeeds and stores the link it built, with the location
    as its path, in memory and on disk; and when no link was stored under
    the name before, or the stored one had no custom-task entry, the link
    it produces has no custom tasks. *)
Theorem C7_missing_index_is_not_fatal (silent : bool)
    (name location foundPath : string) (others : list string) (st : state) :
  findPathByName (pathJoin [location]) "tasks" = foundPath :: others →
  foundPath ≠ "" →
  checkPathExists (pathJoin [foundPath; "index.js"]) = false →
  let warning :=
    LogWarn "Linked tap task folder exists, but index.js file is missing!" in
  (∀ tapObj st0,
     tap_path tapObj = Some location →
     checkCustomTaskFile tapObj st0 = (Ret None, logged [warning] st0))
  ∧ ((ensureAddLink (getTapLink (config st) name) name location silent st).1
       = Ret true →
     ∃ built,
       (buildTapObj silent name location st).1 = Ret (Some built)
       ∧ tap_path built = Some location
       ∧ warning ∈ newEvents st (buildTapObj silent name location st).2
       ∧ (linkTap name location silent st).1 = Ret tt
       ∧ getTapLink (config (linkTap name location silent st).2) name = Some built
       ∧ getTapLink (disk (linkTap name location silent st).2) name = Some built
       ∧ (getTapLink (config st) name ≫= tap_tasks = None →
          built = mkTapObj (Some location) None)).
Proof.
  intros Hfound Hne Hidx warning.
  assert (Hloc : ∀ tapObj st0,
            tap_path tapObj = Some location →
            checkCustomTaskFile tapObj st0 = (Ret None, logged [warning] st0)).
  { intros tapObj st0 Hp. unfold checkCustomTaskFile.
    rewrite Hp, Hfound. simpl. apply truthy_true in Hne. rewrite Hne, Hidx. done. }
  split; [done|]. intros Hok.
  destruct (buildTapObj_run silent name location st) as (b & evs1 & Hen & _ & Hb).
  rewrite Hen in Hok. simpl in Hok. injection Hok as ->.
  destruct Hb as (r & evs2 & Hck & _ & Hb).
  rewrite Hloc in Hck by apply checkTapLocation_path.
  rewrite logged_logged in Hck.
  assert (r = None) as -> by congruence.
  assert (evs2 = [warning]) as ->.
  { injection Hck as Hck. by apply app_inv_head in Hck as ?%app_inv_head. }
  simpl in Hb.
  set (built := mkTapObj (Some location) (getTapLink (config st) name ≫= tap_tasks))
    in Hb.
  exists built.
  unfold linkTap. rewrite (bind_ret _ _ _ _ _ Hb), Hb. simpl.
  rewrite newEvents_logged.
  pose proof (addTapLink_run name built (logged (evs1 ++ [warning]) st)) as Hadd.
  simpl in Hadd. rewrite Hadd. simpl.
  repeat split; try done.
  - rewrite elem_of_app, list_elem_of_singleton. by right.
  - unfold getTapLink. simpl. by rewrite lookup_insert_eq.
  - unfold getTapLink. simpl. by rewrite lookup_insert_eq.
  - intros Hprev. subst built. by rewrite Hprev.
Qed.

End LinkClaims.

(** *** The scenarios of the registration *)

(** C9 at an input: over the link [x => /a], a silent registration with the
    empty location passes the overwrite check and builds a link whose path
    is the empty location. *)
Lemma C9_built_path_is_location_witness :
  @buildTapObj (LinkScenario.bare false) true "x" "" LinkScenario.linkedA
    = (Ret (Some (mkTapObj (Some "") None)), LinkScenario.linkedA)
  ∧ tap_path (mkTapObj (Some "") None) = Some "".
Proof.
  split; [reflexivity|].
  exact (@C9_built_path_is_location (LinkScenario.bare false) true "x" ""
           LinkScenario.linkedA LinkScenario.linkedA (mkTapObj (Some "") None)
           eq_refl).
Defined.

(** C2 as stated fails: over the link [x => /a], a silent registration with
    the empty location, which differs from [/a], is not declined; it
    replaces the stored path and saves the config. *)
Lemma C2_silent_overwrites_with_empty_location :
  let st := LinkScenario.linkedA in
  let st' := (@linkTap (LinkScenario.bare false) "x" "" true st).2 in
  linkedPath (config st) "x" = Some "/a"
  ∧ linkedPath (config st') "x" = Some ""
  ∧ linkedPath (config st') "x" ≠ linkedPath (config st) "x"
  ∧ linkedPath (disk st') "x" = Some "".
Proof. vm_compute. repeat split; congruence. Qed.

(** C2 (amended) at an input: over [x => /a], silent, location [/b]. *)
Lemma C2_silent_never_overwrites_witness :
  @linkTap (LinkScenario.bare true) "x" "/b" true LinkScenario.linkedA
  = (Ret tt, LinkScenario.linkedA).
Proof.
  refine (proj1 (proj2 (proj2 (proj2
    (@C2_silent_never_overwrites (LinkScenario.bare true) "x" "/b"
       (mkTapObj (Some "/a") None) LinkScenario.linkedA eq_refl _))))).
  discriminate.
Defined.

(** C3 at the spec's scenario: link [x => /a], registration with location
    [/b], not silent, the operator declines. *)
Lemma C3_declined_overwrite_aborts_witness :
  let run := @linkTap (LinkScenario.bare false) "x" "/b" false LinkScenario.linkedA in
  run.1 = Ret tt
  ∧ getTapLink (config run.2) "x" = Some (mkTapObj (Some "/a") None).
Proof.
  pose proof (@C3_declined_overwrite_aborts (LinkScenario.bare false) false "x" "/b"
                (mkTapObj (Some "/a") None) LinkScenario.linkedA eq_refl) as Hthm.
  destruct Hthm as (_ & Hret & _ & _ & Hlink & _).
  - exists "Overwrite tap link 'x' => '/b'?".
    apply (bool_decide_unpack _). by vm_compute.
  - split; [exact Hret | exact Hlink].
Defined.

(** C7 as stated fails: the link [x => /a] was registered with a task
    index; re-registering it at [/b], whose [tasks] folder has no index
    file, is confirmed by the operator, logs the warning, and builds a link
    that still has custom tasks, those of [/a]. *)
Lemma C7_link_keeps_previous_tasks :
  let W := LinkScenario.folderOnly true in
  let st := LinkScenario.linkedWithTasks in
  let run := @buildTapObj W false "x" "/b" st in
  @findPathByName W (@pathJoin W ["/b"]) "tasks" = ["/b/tasks"]
  ∧ @checkPathExists W (@pathJoin W ["/b/tasks"; "index.js"]) = false
  ∧ LogWarn "Linked tap task folder exists, but index.js file is missing!"
      ∈ newEvents st run.2
  ∧ run.1 = Ret (Some (mkTapObj (Some "/b") (Some "/a/tasks/index.js")))
  ∧ linkedPath (config (@linkTap W "x" "/b" false st).2) "x" = Some "/b"
  ∧ getTapLink (config (@linkTap W "x" "/b" false st).2) "x" ≫= tap_tasks
    = Some "/a/tasks/index.js".
Proof.
  repeat split; try (vm_compute; reflexivity).
  apply (bool_decide_unpack _). by vm_compute.
Qed.

(** C7 (amended) at an input: a first registration of [x] at [/b], whose
    [tasks] folder has no index file. *)
Lemma C7_missing_index_is_not_fatal_witness :
  let W := LinkScenario.folderOnly true in
  let run := @linkTap W "x" "/b" false LinkScenario.unlinked in
  run.1 = Ret tt
  ∧ getTapLink (config run.2) "x" = Some (mkTapObj (Some "/b") None).
Proof.
  pose proof (@C7_missing_index_is_not_fatal (LinkScenario.folderOnly true) false
                "x" "/b" "/b/tasks" [] LinkScenario.unlinked eq_refl) as Hthm.
  destruct Hthm as (_ & Hreg); [discriminate | reflexivity |].
  destruct Hreg as (built & _ & _ & _ & Hret & Hlink & _ & Hnone); [reflexivity|].
  rewrite (Hnone eq_refl) in Hlink.
  split; [exact Hret | exact Hlink].
Defined.

(** ** Resolution of a command (findTask.js) *)

Lemma contents_fresh (v : list string) (ext : list (list string)) (st : state)
    (c : GlobalConfig) (d : GlobalConfig) (l : list event) :
  contents (length (arrays st)) (mkState c d (arrays st ++ v :: ext) l) = v.
Proof. unfold contents. simpl. by rewrite list_lookup_middle. Qed.

Section FindTaskFacts.
Context `{Collaborators}.

Lemma getCustomTasks_ok (args : LoaderArgs) (taskFile : string) (custom : Tasks)
    (st : state) :
  loadTasks args taskFile = inr custom →
  getCustomTasks args taskFile st = (Ret (custom ∪ la_tasks args), st).
Proof. intros Hl. unfold getCustomTasks. by rewrite Hl. Qed.

Lemma getCustomTasks_fail (args : LoaderArgs) (taskFile : string) (err : fault)
    (st : state) :
  loadTasks args taskFile = inl err →
  getCustomTasks args taskFile st = (Exit 1, logged (loadFailure taskFile err) st).
Proof.
  intros Hl. unfold getCustomTasks. rewrite Hl. unfold_monad.
  unfold logged, loadFailure. simpl. by rewrite <- !app_assoc.
Qed.

(** The task set of the reroute is obtained without touching the store,
    or the process exits on a failed load. *)
Lemma allTasksFor_run (tapObj : TapObj) (c : GlobalConfig) (tasks : Tasks)
    (command : string) (options : ref) (st : state) :
  (∃ allTasks, allTasksFor tapObj c tasks command options st = (Ret allTasks, st))
  ∨ (∃ taskFile err,
       tap_tasks tapObj = Some taskFile
       ∧ loadTasks (mkLoaderArgs c tasks command (contents options st)) taskFile
         = inl err
       ∧ allTasksFor tapObj c tasks command options st
         = (Exit 1, logged (loadFailure taskFile err) st)).
Proof.
  unfold allTasksFor. destruct (tap_tasks tapObj) as [taskFile|]; [|by left; eexists].
  destruct (negb (truthy taskFile)); [by left; eexists|].
  rewrite bind_run. simpl.
  destruct (loadTasks (mkLoaderArgs c tasks command (contents options st)) taskFile)
    as [err|custom] eqn:Hl.
  - right. exists taskFile, err. by rewrite (getCustomTasks_fail _ _ _ _ Hl).
  - left. eexists. by rewrite (getCustomTasks_ok _ _ _ _ Hl).
Qed.

(** A lookup allocates the option array of its result and logs itself. *)
Lemma callGetTask_run (from : site) (tasks : Tasks) (name : string)
    (options : ref) (st : state) :
  callGetTask from tasks name options st
  = (Ret (mkTaskData (getTask tasks name (contents options st)).1
            (length (arrays st)) None),
     grown [(getTask tasks name (contents options st)).2] [TaskLookup from name] st).
Proof. done. Qed.

(** The reroute in closed form, once the task set is known. *)
Lemma reroute_run (tapObj : TapObj) (tapPath : string) (c : GlobalConfig)
    (tasks allTasks : Tasks) (command : string) (options : ref) (st : state) :
  allTasksFor tapObj c tasks command options st = (Ret allTasks, st) →
  let opts := contents options st in
  let found := getTask allTasks "tap" opts in
  let traced := [TaskLookup ViaTap "tap"] in
  reroute tapObj tapPath c tasks command options st
  = match parseArgs found.1 found.2 command {["tap" := command]} c with
    | inl e => (Throw e, grown [opts; found.2] traced st)
    | inr params =>
        let td := mkTaskData found.1 (S (length (arrays st))) (Some params) in
        let st' := grown [opts; beforeLast ("tap=" +:+ command) found.2] traced st in
        if from_option task_inject false found.1
        then match injectService td command tapPath with
             | inr td' => (Ret td', st')
             | inl e => (Throw e, st')
             end
        else (Ret td, st')
    end.
Proof.
  intros Hall opts found traced. subst traced. unfold reroute.
  rewrite (bind_ret _ _ _ _ _ Hall).
  rewrite bind_run. simpl. rewrite bind_run. simpl.
  rewrite bind_run, callGetTask_run. unfold grown. simpl.
  rewrite contents_fresh. fold opts found.
  rewrite bind_run. simpl.
  replace (length (arrays st ++ [opts])) with (S (length (arrays st)))
    by (rewrite length_app; simpl; lia).
  assert (Hfresh : ∀ d l,
    contents (S (length (arrays st)))
      (mkState (config st) d ((arrays st ++ [opts]) ++ [found.2]) l) = found.2).
  { intros d l. unfold contents. simpl. rewrite <- app_assoc. simpl.
    rewrite lookup_app_r by lia.
    by replace (S (length (arrays st)) - length (arrays st))%nat with 1%nat by lia. }
  rewrite Hfresh. rewrite bind_run.
  destruct (parseArgs found.1 found.2 command {["tap" := command]} c) as [e|params];
    simpl.
  { by rewrite <- app_assoc. }
  rewrite bind_run. simpl. rewrite Hfresh. rewrite bind_run. simpl.
  rewrite splice_insert_before_last.
  assert (Hst : <[S (length (arrays st)) := beforeLast ("tap=" +:+ command) found.2]>
                  ((arrays st ++ [opts]) ++ [found.2])
                = arrays st ++ [opts; beforeLast ("tap=" +:+ command) found.2]).
  { rewrite <- app_assoc. simpl. rewrite insert_app_r_alt by lia.
    by replace (S (length (arrays st)) - length (arrays st))%nat with 1%nat by lia. }
  rewrite Hst.
  destruct (from_option task_inject false found.1); simpl; [|done].
  by destruct (injectService _ _ _).
Qed.

(** Whether the task set is obtained does not depend on the trace. *)
Lemma allTasksFor_logged_ret (tapObj : TapObj) (c : GlobalConfig) (tasks : Tasks)
    (command : string) (options : ref) (evs : list event) (st : state)
    (allTasks : Tasks) :
  allTasksFor tapObj c tasks command options (logged evs st)
    = (Ret allTasks, logged evs st) →
  allTasksFor tapObj c tasks command options st = (Ret allTasks, st).
Proof.
  unfold allTasksFor. destruct (tap_tasks tapObj) as [taskFile|]; [|by intros [= ->]].
  destruct (negb (truthy taskFile)); [by intros [= ->]|].
  rewrite !bind_run. simpl.
  change (contents options (logged evs st)) with (contents options st).
  destruct (loadTasks (mkLoaderArgs c tasks command (contents options st)) taskFile)
    as [err|custom] eqn:Hl.
  - by rewrite (getCustomTasks_fail _ _ _ _ Hl).
  - unfold getCustomTasks. rewrite Hl. by intros [= <-].
Qed.

(** A link without a usable path: the check only records the lookup. *)
Lemma checkLinkedTaps_inert (tasks : Tasks) (command : string) (options : ref)
    (st : state) :
  truthy_opt (linkedPath (config st) command) = false →
  checkLinkedTaps tasks command options st
  = (Ret None, logged [LinkLookup command] st).
Proof.
  unfold linkedPath, checkLinkedTaps. intros Hp.
  rewrite bind_run. simpl. rewrite bind_run. simpl.
  destruct (getTapLink (config st) command) as [tapObj|]; [|done]. simpl in Hp.
  destruct (tap_path tapObj) as [tapPath|]; [|done]. simpl in Hp.
  by rewrite Hp.
Qed.

(** A link with a path: the check is the reroute. *)
Lemma checkLinkedTaps_linked (tasks : Tasks) (command : string) (options : ref)
    (st : state) (tapObj : TapObj) (tapPath : string) :
  getTapLink (config st) command = Some tapObj →
  tap_path tapObj = Some tapPath →
  tapPath ≠ "" →
  checkLinkedTaps tasks command options st
  = (taskData ← reroute tapObj tapPath (config st) tasks command options;
     mret (Some taskData)) (logged [LinkLookup command] st).
Proof.
  intros Hlink Hpath Hne%truthy_true. unfold checkLinkedTaps.
  rewrite bind_run. simpl. rewrite bind_run. simpl.
  by rewrite Hlink, Hpath, Hne.
Qed.

Lemma linkedPath_cases (c : GlobalConfig) (command : string) :
  truthy_opt (linkedPath c command) = false
  ∨ ∃ tapObj tapPath,
      getTapLink c command = Some tapObj ∧ tap_path tapObj = Some tapPath
      ∧ tapPath ≠ "".
Proof.
  unfold linkedPath. destruct (getTapLink c command) as [tapObj|]; [|by left].
  simpl. destruct (tap_path tapObj) as [tapPath|] eqn:Hp; [|by left]. simpl.
  destruct (truthy tapPath) eqn:Ht; [|by left].
  right. exists tapObj, tapPath. by apply truthy_true in Ht.
Qed.

(** Validation leaves the store alone. *)
Lemma validated_store (foundTask : TaskData) (options : ref) (st : state) :
  (validated foundTask options st).2 = st.
Proof.
  unfold validated. rewrite bind_run. simpl. rewrite bind_run.
  by destruct (validateTask _ _).
Qed.

Lemma directLookup_store (tasks : Tasks) (command : string) (options : ref)
    (st : state) :
  (directLookup tasks command options st).2
  = grown [(getTask tasks command (contents options st)).2]
      [TaskLookup Direct command] st.
Proof.
  unfold directLookup. rewrite bind_run, callGetTask_run. apply validated_store.
Qed.

(** The store a reroute leaves: the copy of the options and the options
    of the lookup were allocated and the lookup logged, unless loading
    the custom tasks ended the process before. *)
Lemma reroute_store (tapObj : TapObj) (tapPath : string) (c : GlobalConfig)
    (tasks : Tasks) (command : string) (options : ref) (st : state) :
  (∃ allTasks ext,
     allTasksFor tapObj c tasks command options st = (Ret allTasks, st)
     ∧ (reroute tapObj tapPath c tasks command options st).2
       = grown ext [TaskLookup ViaTap "tap"] st
     ∧ (reroute tapObj tapPath c tasks command options st).1 ≠ Exit 1)
  ∨ (∃ taskFile err,
       tap_tasks tapObj = Some taskFile
       ∧ loadTasks (mkLoaderArgs c tasks command (contents options st)) taskFile
         = inl err
       ∧ reroute tapObj tapPath c tasks command options st
         = (Exit 1, logged (loadFailure taskFile err) st)).
Proof.
  destruct (allTasksFor_run tapObj c tasks command options st)
    as [[allTasks Hall]|(taskFile & err & Htasks & Hload & Hall)].
  - left. exists allTasks. rewrite (reroute_run _ tapPath _ _ _ _ _ _ Hall).
    destruct (parseArgs _ _ _ _ _); simpl; [by eexists|].
    destruct (from_option _ _ _); simpl; [|by eexists].
    destruct (injectService _ _ _); simpl; by eexists.
  - right. exists taskFile, err. do 2 (split; [done|]).
    unfold reroute. by rewrite bind_run, Hall.
Qed.

Lemma then_validated_store (m : M TaskData) (options : ref) (st : state) :
  ((foundTask ← m; validated foundTask options) st).2 = (m st).2.
Proof.
  rewrite bind_run. destruct (m st) as [[td|code|e] st']; simpl; [|done..].
  apply validated_store.
Qed.

Lemma then_validated_exit (m : M TaskData) (options : ref) (st st' : state)
    (code : Z) :
  m st = (Exit code, st') →
  (foundTask ← m; validated foundTask options) st = (Exit code, st').
Proof. intros Hm. by rewrite bind_run, Hm. Qed.

Lemma then_some_not_none (m : M TaskData) (st : state) :
  ((taskData ← m; mret (Some taskData)) st).1 ≠ Ret None.
Proof. rewrite bind_run. by destruct (m st) as [[td|code|e] st']. Qed.

(** Without a usable link, resolution is the direct lookup. *)
Lemma findTask_inert (tasks : Tasks) (command : string) (options : ref)
    (st : state) :
  truthy_opt (linkedPath (config st) command) = false →
  findTask tasks command options st
  = directLookup tasks command options (logged [LinkLookup command] st).
Proof.
  intros Hp. unfold findTask.
  by rewrite (bind_ret _ _ _ _ _ (checkLinkedTaps_inert tasks command options st Hp)).
Qed.

(** With a usable link, resolution is the reroute, then validation. *)
Lemma findTask_linked (tasks : Tasks) (command : string) (options : ref)
    (st : state) (tapObj : TapObj) (tapPath : string) :
  getTapLink (config st) command = Some tapObj →
  tap_path tapObj = Some tapPath →
  tapPath ≠ "" →
  findTask tasks command options st
  = (foundTask ← reroute tapObj tapPath (config st) tasks command options;
     validated foundTask options) (logged [LinkLookup command] st).
Proof.
  intros Hlink Hpath Hne. unfold findTask.
  rewrite bind_run, (checkLinkedTaps_linked _ _ _ _ _ _ Hlink Hpath Hne).
  rewrite !bind_run.
  by destruct (reroute _ _ _ _ _ _ _) as [[td|code|e] st'].
Qed.

(** What a resolution does to the store: it allocates arrays and extends
    the trace, first with the lookup of the link, then with the direct
    lookup exactly when the link check yielded nothing. *)
Lemma findTask_store (tasks : Tasks) (command : string) (options : ref)
    (st : state) :
  ∃ (ext : list (list string)) (evs : list event),
    (findTask tasks command options st).2
      = grown ext (LinkLookup command :: evs) st
    ∧ ((checkLinkedTaps tasks command options st).1 = Ret None
       ∧ evs = [TaskLookup Direct command]
       ∨ (checkLinkedTaps tasks command options st).1 ≠ Ret None
         ∧ (evs = [TaskLookup ViaTap "tap"]
            ∨ ∃ taskFile err,
                evs = loadFailure taskFile err
                ∧ (findTask tasks command options st).1 = Exit 1)).
Proof.
  destruct (linkedPath_cases (config st) command)
    as [Hinert|(tapObj & tapPath & Hlink & Hpath & Hne)].
  - rewrite (findTask_inert _ _ _ _ Hinert), directLookup_store.
    rewrite (checkLinkedTaps_inert _ _ _ _ Hinert).
    eexists _, _. split; [|by left].
    unfold grown, logged. simpl. by rewrite <- app_assoc.
  - rewrite (findTask_linked _ _ _ _ _ _ Hlink Hpath Hne).
    rewrite (checkLinkedTaps_linked _ _ _ _ _ _ Hlink Hpath Hne).
    rewrite then_validated_store.
    destruct (reroute_store tapObj tapPath (config st) tasks command options
                (logged [LinkLookup command] st))
      as [(allTasks & ext & _ & Hst & _)|(taskFile & err & _ & _ & Hexit)].
    + rewrite Hst. exists ext, [TaskLookup ViaTap "tap"]. split.
      * unfold grown, logged. simpl. by rewrite <- app_assoc.
      * right. split; [apply then_some_not_none | by left].
    + rewrite (then_validated_exit _ _ _ _ _ Hexit), Hexit.
      exists [], (loadFailure taskFile err). split.
      * unfold grown, logged. simpl. by rewrite <- app_assoc, app_nil_r.
      * right. split; [apply then_some_not_none | right; by eexists _, _].
Qed.

End FindTaskFacts.

Section FindTaskClaims.
Context `{Collaborators}.

(** C6: when the link declares a custom-task entry, the tasks loaded from
    it are merged over the base task set and win on every name they
    define, the base tasks staying for the other names; when the link
    declares none, the base task set is used as it is.  The rerouted
    lookup of [tap] runs in that task set. *)
Theorem C6_custom_tasks_win (tapObj : TapObj) (c : GlobalConfig) (tasks : Tasks)
    (command : string) (options : ref) (st : state) :
  (∀ taskFile custom,
     tap_tasks tapObj = Some taskFile →
     taskFile ≠ "" →
     loadTasks (mkLoaderArgs c tasks command (contents options st)) taskFile
       = inr custom →
     allTasksFor tapObj c tasks command options st = (Ret (custom ∪ tasks), st)
     ∧ (∀ name task, custom !! name = Some task →
                     (custom ∪ tasks) !! name = Some task)
     ∧ (∀ name, custom !! name = None →
                (custom ∪ tasks) !! name = tasks !! name))
  ∧ (truthy_opt (tap_tasks tapObj) = false →
     allTasksFor tapObj c tasks command options st = (Ret tasks, st))
  ∧ (∀ allTasks tapPath td st',
       allTasksFor tapObj c tasks command options st = (Ret allTasks, st) →
       from_option task_inject false
         (getTask allTasks "tap" (contents options st)).1 = false →
       reroute tapObj tapPath c tasks command options st = (Ret td, st') →
       td_task td = (getTask allTasks "tap" (contents options st)).1).
Proof.
  split; [|split].
  - intros taskFile custom Htasks Hne%truthy_true Hload. split; [|split].
    + unfold allTasksFor. rewrite Htasks, Hne. simpl.
      rewrite bind_run. simpl. by rewrite (getCustomTasks_ok _ _ _ _ Hload).
    + intros name task Hc. by apply lookup_union_Some_l.
    + intros name Hc. by apply lookup_union_r.
  - intros Hnone. unfold allTasksFor.
    destruct (tap_tasks tapObj) as [taskFile|]; [|done].
    simpl in Hnone. by rewrite Hnone.
  - intros allTasks tapPath td st' Hall Hinj.
    rewrite (reroute_run _ tapPath _ _ _ _ _ _ Hall). simpl.
    destruct (parseArgs _ _ _ _ _); [done|]. rewrite Hinj.
    by intros [= <- _].
Qed.

End FindTaskClaims.

Lemma newEvents_grown (ext : list (list string)) (evs : list event) (st : state) :
  newEvents st (grown ext evs st) = evs.
Proof. unfold newEvents, grown. simpl. by rewrite drop_app_length. Qed.

Lemma contents_grown_second (a b : list string) (evs : list event) (st : state) :
  contents (S (length (arrays st))) (grown [a; b] evs st) = b.
Proof.
  unfold contents, grown. simpl. rewrite lookup_app_r by lia.
  by replace (S (length (arrays st)) - length (arrays st))%nat with 1%nat by lia.
Qed.

Section RerouteClaims.
Context `{Collaborators}.

(** Where the reroute puts the tap token: just before the last of the
    options the lookup of [tap] returned.  [td0] is the task data the
    reroute builds; it is returned as it is, or handed to
    [injectService] when the task found declares [inject]. *)
Lemma reroute_token_position (tasks : Tasks) (command : string) (options : ref)
    (st st' : state) (tapObj : TapObj) (tapPath : string) (td : TaskData) :
  getTapLink (config st) command = Some tapObj →
  tap_path tapObj = Some tapPath →
  tapPath ≠ "" →
  checkLinkedTaps tasks command options st = (Ret (Some td), st') →
  ∃ allTasks td0,
    allTasksFor tapObj (config st) tasks command options st = (Ret allTasks, st)
    ∧ td_task td0 = (getTask allTasks "tap" (contents options st)).1
    ∧ (if from_option task_inject false (td_task td0)
       then injectService td0 command tapPath = inr td
       else td = td0)
    ∧ contents (td_options td0) st'
      = beforeLast ("tap=" +:+ command)
          (getTask allTasks "tap" (contents options st)).2.
Proof.
  intros Hlink Hpath Hne.
  rewrite (checkLinkedTaps_linked _ _ _ _ _ _ Hlink Hpath Hne), bind_run.
  set (st1 := logged [LinkLookup command] st).
  destruct (allTasksFor_run tapObj (config st) tasks command options st1)
    as [[allTasks Hall]|(taskFile & err & _ & _ & Hall)].
  2:{ unfold reroute. by rewrite bind_run, Hall. }
  rewrite (reroute_run _ tapPath _ _ _ _ _ _ Hall). simpl.
  change (contents options st1) with (contents options st).
  apply allTasksFor_logged_ret in Hall.
  set (found := getTask allTasks "tap" (contents options st)).
  destruct (parseArgs _ _ _ _ _) as [e|params]; [done|].
  set (td0 := mkTaskData found.1 (S (length (arrays st))) (Some params)).
  assert (Hc : contents (td_options td0)
                 (grown [contents options st;
                         beforeLast ("tap=" +:+ command) found.2]
                    [TaskLookup ViaTap "tap"] st1)
               = beforeLast ("tap=" +:+ command) found.2).
  { apply (contents_grown_second _ _ _ st1). }
  destruct (from_option task_inject false found.1) eqn:Hinj.
  - destruct (injectService _ _ _) as [e|td'] eqn:Hsvc; [done|].
    intros [= <- <-]. exists allTasks, td0. simpl. by rewrite Hinj.
  - intros [= <- <-]. exists allTasks, td0. simpl. by rewrite Hinj.
Qed.

End RerouteClaims.

(** C1 (amended): when the resolver reroutes a command to a linked tap, it
    inserts the token [tap=<command>] just before the last element of the
    options returned by the lookup of the [tap] task, whatever that last
    element is; a trailing help flag therefore stays last, and on an empty
    list the token is the only element.  In particular, for
    [tapLinks = { "mytap": { path: "/repos/mytap" } }], command [mytap] and
    options [["--verbose"]], the resulting options are
    [["tap=mytap"; "--verbose"]]. *)
Theorem C1_tap_token_before_last_option :
  (∀ (W : Collaborators) (tasks : Tasks) (command : string) (options : ref)
     (st st' : state) (tapObj : TapObj) (tapPath : string) (td : TaskData),
     getTapLink (config st) command = Some tapObj →
     tap_path tapObj = Some tapPath →
     tapPath ≠ "" →
     checkLinkedTaps tasks command options st = (Ret (Some td), st') →
     ∃ allTasks td0,
       allTasksFor tapObj (config st) tasks command options st = (Ret allTasks, st)
       ∧ td_task td0 = (getTask allTasks "tap" (contents options st)).1
       ∧ (if from_option task_inject false (td_task td0)
          then injectService td0 command tapPath = inr td
          else td = td0)
       ∧ let given := (getTask allTasks "tap" (contents options st)).2 in
         let token := "tap=" +:+ command in
         contents (td_options td0) st' = beforeLast token given
         ∧ (∀ init x, given = init ++ [x] →
                      contents (td_options td0) st' = init ++ [token; x])
         ∧ (given ≠ [] →
            last_elem (contents (td_options td0) st') = last_elem given)
         ∧ (given = [] → contents (td_options td0) st' = [token]))
  ∧ resolvedOptions
      (@findTask ResolveScenario.plain Scenario.builtins "mytap" 0%nat
         ResolveScenario.verbose)
    = Some ["tap=mytap"; "--verbose"].
Proof.
  split; [|by vm_compute].
  intros W tasks command options st st' tapObj tapPath td Hlink Hpath Hne Hrun.
  destruct (reroute_token_position _ _ _ _ _ _ _ _ Hlink Hpath Hne Hrun)
    as (allTasks & td0 & Hall & Htask & Hinj & Hpos).
  exists allTasks, td0. do 3 (split; [done|]). simpl. rewrite Hpos.
  split; [done|]. split; [|split].
  - intros init x ->. apply beforeLast_snoc.
  - apply last_beforeLast.
  - by intros ->.
Qed.

(** C1 as stated fails on its own example: for the link [mytap], command
    [mytap] and options [["--verbose"]], the command is rerouted to the
    [tap] task and the token lands before [--verbose], not after it. *)
Lemma C1_token_precedes_single_option :
  let run := @findTask ResolveScenario.plain Scenario.builtins "mytap" 0%nat
               ResolveScenario.verbose in
  resolvedOptions run = Some ["tap=mytap"; "--verbose"]
  ∧ resolvedOptions run ≠ Some ["--verbose"; "tap=mytap"].
Proof. by vm_compute. Qed.

(** C1 (amended) at an input: with a trailing help flag, the token goes
    between [--verbose] and [--help]. *)
Lemma C1_tap_token_before_last_option_witness :
  let run := @checkLinkedTaps ResolveScenario.plain Scenario.builtins "mytap" 0%nat
               ResolveScenario.verboseHelp in
  let td := mkTaskData (Some Scenario.tapTask) 2 (Some {["tap" := "mytap"]}) in
  run.1 = Ret (Some td)
  ∧ contents (td_options td) run.2 = ["--verbose"; "tap=mytap"; "--help"].
Proof.
  intros run td. split; [by vm_compute|].
  destruct (proj1 C1_tap_token_before_last_option ResolveScenario.plain
              Scenario.builtins "mytap" 0%nat ResolveScenario.verboseHelp run.2
              ResolveScenario.mytap "/repos/mytap" td)
    as (allTasks & td0 & Hall & Htask & Hinj & _ & Hsnoc & _ & _).
  - reflexivity.
  - reflexivity.
  - discriminate.
  - by vm_compute.
  - injection Hall as <-. rewrite Htask in Hinj. vm_compute in Hinj. subst td0.
    apply (Hsnoc ["--verbose"] "--help"). reflexivity.
Defined.

(** C6 at an input: the task index of [mytap] redefines [tap] and adds
    [deploy]; [build] comes from the base set. *)
Lemma C6_custom_tasks_win_witness :
  @allTasksFor ResolveScenario.customModule ResolveScenario.mytapWithTasks
    (config ResolveScenario.withTasks) Scenario.builtins "mytap" 0%nat
    ResolveScenario.withTasks
  = (Ret (ResolveScenario.custom ∪ Scenario.builtins), ResolveScenario.withTasks).
Proof.
  refine (proj1 (proj1
    (@C6_custom_tasks_win ResolveScenario.customModule ResolveScenario.mytapWithTasks
       (config ResolveScenario.withTasks) Scenario.builtins "mytap" 0%nat
       ResolveScenario.withTasks)
    ResolveScenario.indexFile ResolveScenario.custom eq_refl _ eq_refl)).
  discriminate.
Defined.

(** * Further properties of the registration (link.js) *)

Section LinkTraces.
Context `{Collaborators}.

(** The only event of the overwrite check is the prompt, with the message
    of line 19 and the operator's answer as the result. *)
Lemma ensureAddLink_asked (currentTap : option TapObj) (name location : string)
    (silent : bool) (st : state) (msg : string) (answer : bool) :
  Asked msg answer
    ∈ newEvents st (ensureAddLink currentTap name location silent st).2 →
  msg = "Overwrite tap link '" +:+ name +:+ "' => '" +:+ location +:+ "'?"
  ∧ answer = confirm msg
  ∧ (ensureAddLink currentTap name location silent st).1 = Ret answer
  ∧ silent = false ∧ is_Some currentTap ∧ location ≠ "".
Proof.
  unfold ensureAddLink, askConfirm.
  destruct (bool_decide (is_Some currentTap)) eqn:Hc; simpl;
    [destruct (truthy location) eqn:Hl; simpl; [destruct silent; simpl|]|];
    unfold_monad; simpl; unfold newEvents; simpl;
    rewrite ?drop_all, ?drop_app_length; intros Hin;
    try by apply elem_of_nil in Hin.
  apply list_elem_of_singleton in Hin. injection Hin as -> ->.
  apply bool_decide_eq_true in Hc. apply truthy_true in Hl. done.
Qed.

(** The locator either found nothing to warn about, or warned and reported
    the entry as absent; it never throws on a link that has a path. *)
Lemma checkCustomTaskFile_result (tapObj : TapObj) (p : string) (st : state) :
  tap_path tapObj = Some p →
  checkCustomTaskFile tapObj st
  = match head (findPathByName (pathJoin [p]) "tasks") with
    | None => (Ret None, st)
    | Some foundPath =>
        if negb (truthy foundPath) then (Ret None, st)
        else if checkPathExists (pathJoin [foundPath; "index.js"])
             then (Ret (Some (pathJoin [foundPath; "index.js"])), st)
             else (Ret None,
                   logged [LogWarn "Linked tap task folder exists, but index.js file is missing!"] st)
    end.
Proof.
  intros Hp. unfold checkCustomTaskFile. rewrite Hp.
  destruct (head _) as [foundPath|]; [|done].
  destruct (negb (truthy foundPath)); [done|].
  by destruct (checkPathExists _).
Qed.

(** [buildTapObj] always returns, and leaves a trace whose only prompt is
    the one of the overwrite check. *)
Lemma buildTapObj_store (silent : bool) (name location : string) (st : state) :
  ∃ (o : option TapObj) (evs : list event),
    buildTapObj silent name location st = (Ret o, logged evs st)
    ∧ (Saved ∉ evs)
    ∧ ∀ msg answer,
        Asked msg answer ∈ evs →
        msg = "Overwrite tap link '" +:+ name +:+ "' => '" +:+ location +:+ "'?"
        ∧ answer = confirm msg
        ∧ silent = false
        ∧ is_Some (getTapLink (config st) name)
        ∧ location ≠ "".
Proof.
  destruct (buildTapObj_run silent name location st) as (b & evs1 & Hen & Hevs1 & Hb).
  assert (Hasked : ∀ msg answer,
            Asked msg answer ∈ evs1 →
            msg = "Overwrite tap link '" +:+ name +:+ "' => '" +:+ location +:+ "'?"
            ∧ answer = confirm msg ∧ silent = false
            ∧ is_Some (getTapLink (config st) name) ∧ location ≠ "").
  { intros msg answer Hin.
    destruct (ensureAddLink_asked (getTapLink (config st) name) name location
                silent st msg answer) as (? & ? & _ & ? & ? & ?); [|done].
    rewrite Hen. simpl. by rewrite newEvents_logged. }
  assert (Hsaved1 : Saved ∉ evs1).
  { destruct Hevs1 as [->|(msg & -> & _)]; [apply not_elem_of_nil|].
    by intros ?%list_elem_of_singleton. }
  destruct b.
  - destruct Hb as (r & evs2 & _ & Hevs2 & Hb).
    eexists _, (evs1 ++ evs2). split; [exact Hb|]. split.
    + intros [?|Hin]%elem_of_app; [done|].
      destruct Hevs2 as [->|[-> _]]; [by apply elem_of_nil in Hin|].
      by apply list_elem_of_singleton in Hin.
    + intros msg answer [?|Hin]%elem_of_app; [by apply Hasked|].
      destruct Hevs2 as [->|[-> _]]; [by apply elem_of_nil in Hin|].
      by apply list_elem_of_singleton in Hin.
  - exists None, evs1. done.
Qed.

(** [linkTap] in closed form, from what [buildTapObj] returned. *)
Lemma linkTap_run (silent : bool) (name location : string) (st : state)
    (o : option TapObj) (evs : list event) :
  buildTapObj silent name location st = (Ret o, logged evs st) →
  linkTap name location silent st
  = match o with
    | Some t =>
        let c := mkConfig (Some (<[name := t]> (default ∅ (tapLinks (config st))))) in
        (Ret tt,
         mkState c c (arrays st)
           (log st ++ evs
            ++ [Saved;
                LogSuccess ("Successfully linked tap '" +:+ name +:+ "' => '"
                            +:+ default "undefined" (tap_path t) +:+ "'");
                LogEmpty]))
    | None =>
        (Ret tt,
         logged (evs ++ (if silent then []
                         else [LogWarn "Tap link canceled!"; LogEmpty])) st)
    end.
Proof.
  intros Hb. unfold linkTap. rewrite (bind_ret _ _ _ _ _ Hb).
  destruct o as [t|].
  - pose proof (addTapLink_run name t (logged evs st)) as Hadd. simpl in Hadd.
    rewrite Hadd. simpl. by rewrite <- app_assoc.
  - destruct silent; simpl.
    + by rewrite app_nil_r.
    + unfold_monad. unfold logged. simpl. by rewrite <- !app_assoc.
Qed.

End LinkTraces.

Section LinkExtras.
Context `{Collaborators}.

Lemma logged_same_nil (evs : list event) (st : state) :
  st = logged evs st → evs = [].
Proof.
  intros Hst. apply (f_equal log) in Hst. simpl in Hst.
  apply (app_inv_head (log st)). by rewrite app_nil_r.
Qed.

(** What the locator reports depends on the path of the link alone. *)
Lemma checkCustomTaskFile_value (tapObj tapObj' : TapObj) (p : string)
    (st st' : state) :
  tap_path tapObj = Some p →
  tap_path tapObj' = Some p →
  (checkCustomTaskFile tapObj st).1 = (checkCustomTaskFile tapObj' st').1.
Proof.
  intros Hp Hp'.
  rewrite (checkCustomTaskFile_result _ _ _ Hp), (checkCustomTaskFile_result _ _ _ Hp').
  destruct (head _) as [foundPath|]; [|done].
  destruct (negb (truthy foundPath)); [done|].
  by destruct (checkPathExists _).
Qed.

(** The link a registration builds, from what the locator reports for the
    new location. *)
Lemma buildTapObj_built (silent : bool) (name location : string) (st : state)
    (t : TapObj) :
  (buildTapObj silent name location st).1 = Ret (Some t) →
  ∃ r evs,
    checkCustomTaskFile (mkTapObj (Some location) None) st = (Ret r, logged evs st)
    ∧ t = mkTapObj (Some location)
            (if truthy_opt r then r else getTapLink (config st) name ≫= tap_tasks)
    ∧ ∀ s, LogWarn s ∈ newEvents st (buildTapObj silent name location st).2 →
           LogWarn s ∈ evs.
Proof.
  intros Hret.
  destruct (buildTapObj_run silent name location st) as (b & evs1 & _ & Hevs1 & Hb).
  destruct b; [|by rewrite Hb in Hret].
  destruct Hb as (r & evs2 & Hck & _ & Hb). rewrite Hb in Hret. simpl in Hret.
  injection Hret as <-.
  set (tapObj := checkTapLocation _ _) in Hck.
  assert (Hp : tap_path tapObj = Some location) by apply checkTapLocation_path.
  pose proof (checkCustomTaskFile_result tapObj location (logged evs1 st) Hp) as Hr1.
  pose proof (checkCustomTaskFile_result (mkTapObj (Some location) None) location st
                eq_refl) as Hr2.
  rewrite Hck in Hr1. rewrite Hb. simpl. rewrite newEvents_logged.
  destruct (head _) as [foundPath|].
  2:{ injection Hr1 as -> Hlog. exists None, []. rewrite logged_nil.
      split; [done|]. split; [done|]. intros s Hin.
      apply app_inv_head in Hlog.
      assert (evs2 = []) as -> by (apply (app_inv_head evs1); by rewrite app_nil_r).
      rewrite app_nil_r in Hin.
      destruct Hevs1 as [->|(msg & -> & _)]; [done|].
      by apply list_elem_of_singleton in Hin. }
  destruct (negb (truthy foundPath)).
  { injection Hr1 as -> Hlog. exists None, []. rewrite logged_nil.
    split; [done|]. split; [done|]. intros s Hin.
    apply app_inv_head in Hlog.
    assert (evs2 = []) as -> by (apply (app_inv_head evs1); by rewrite app_nil_r).
    rewrite app_nil_r in Hin.
    destruct Hevs1 as [->|(msg & -> & _)]; [done|].
    by apply list_elem_of_singleton in Hin. }
  destruct (checkPathExists _).
  - injection Hr1 as -> Hlog. eexists _, []. rewrite logged_nil.
    split; [done|]. split; [done|]. intros s Hin.
    apply app_inv_head in Hlog.
    assert (evs2 = []) as -> by (apply (app_inv_head evs1); by rewrite app_nil_r).
    rewrite app_nil_r in Hin.
    destruct Hevs1 as [->|(msg & -> & _)]; [done|].
    by apply list_elem_of_singleton in Hin.
  - injection Hr1 as -> Hlog. eexists None, [_].
    split; [exact Hr2|]. split; [done|]. intros s Hin.
    apply elem_of_app in Hin as [Hin|Hin].
    + destruct Hevs1 as [->|(msg & -> & _)]; [by apply elem_of_nil in Hin|].
      by apply list_elem_of_singleton in Hin.
    + unfold logged in Hlog. simpl in Hlog. rewrite <- app_assoc in Hlog.
      apply app_inv_head, app_inv_head in Hlog. by rewrite <- Hlog.
Qed.

(** The store a successful registration leaves. *)
Lemma linkTap_config (silent : bool) (name location : string) (st : state)
    (t : TapObj) :
  (buildTapObj silent name location st).1 = Ret (Some t) →
  let c := mkConfig (Some (<[name := t]> (default ∅ (tapLinks (config st))))) in
  (linkTap name location silent st).1 = Ret tt
  ∧ config (linkTap name location silent st).2 = c
  ∧ disk (linkTap name location silent st).2 = c
  ∧ arrays (linkTap name location silent st).2 = arrays st
  ∧ ∃ evs, (buildTapObj silent name location st).2 = logged evs st
           ∧ newEvents st (linkTap name location silent st).2
             = evs ++ [Saved;
                       LogSuccess ("Successfully linked tap '" +:+ name +:+ "' => '"
                                   +:+ default "undefined" (tap_path t) +:+ "'");
                       LogEmpty].
Proof.
  intros Hret c.
  destruct (buildTapObj_store silent name location st) as (o & evs & Hb & _).
  rewrite Hb in Hret. simpl in Hret. injection Hret as ->.
  rewrite (linkTap_run _ _ _ _ _ _ Hb), Hb. simpl.
  repeat split. exists evs. split; [done|].
  unfold newEvents. simpl. by rewrite drop_app_length.
Qed.

(** X1: a registration that is not declined stores exactly the link it
    built, under the name given and with the location as its path, in
    memory and on disk alike; it creates the container of the links when
    there was none, and leaves the links of all other names and the arrays
    as they were. *)
Theorem linkTap_stores_built_link (silent : bool) (name location : string)
    (st : state) (t : TapObj) :
  (buildTapObj silent name location st).1 = Ret (Some t) →
  (linkTap name location silent st).1 = Ret tt
  ∧ getTapLink (config (linkTap name location silent st).2) name = Some t
  ∧ linkedPath (config (linkTap name location silent st).2) name = Some location
  ∧ disk (linkTap name location silent st).2
    = config (linkTap name location silent st).2
  ∧ (∀ other, other ≠ name →
       getTapLink (config (linkTap name location silent st).2) other
       = getTapLink (config st) other)
  ∧ arrays (linkTap name location silent st).2 = arrays st
  ∧ Saved ∈ newEvents st (linkTap name location silent st).2.
Proof.
  intros Hret.
  destruct (linkTap_config _ _ _ _ _ Hret) as (Hr & Hc & Hd & Ha & evs & _ & Hevs).
  destruct (buildTapObj_built _ _ _ _ _ Hret) as (r & _ & _ & Ht & _).
  rewrite Hc, Hd, Hevs. unfold linkedPath, getTapLink. simpl.
  rewrite lookup_insert_eq. simpl.
  repeat split; try done.
  - by rewrite Ht.
  - intros other Hne. rewrite lookup_insert_ne by done.
    by destruct (tapLinks (config st)).
  - rewrite elem_of_app, elem_of_cons. right. by left.
Qed.

(** X2: for a name that is one own key of the container of the links (no
    dot in it, not the name of an inherited member), the only prompt a
    registration ever shows is the overwrite question for the name and
    location given, and it shows it only when it is not silent, a link is
    stored under the name and the location is not empty; the answer
    recorded is the operator's. *)
Theorem linkTap_prompts_only_to_overwrite (silent : bool) (name location : string)
    (st : state) (msg : string) (answer : bool) :
  plainKey name = true →
  Asked msg answer ∈ newEvents st (linkTap name location silent st).2 →
  msg = "Overwrite tap link '" +:+ name +:+ "' => '" +:+ location +:+ "'?"
  ∧ answer = confirm msg
  ∧ silent = false
  ∧ is_Some (getTapLink (config st) name)
  ∧ location ≠ "".
Proof.
  intros _.
  destruct (buildTapObj_store silent name location st) as (o & evs & Hb & _ & Hasked).
  rewrite (linkTap_run _ _ _ _ _ _ Hb). intros Hin. apply (Hasked msg answer).
  destruct o as [t|]; simpl in Hin.
  - unfold newEvents in Hin. simpl in Hin. rewrite drop_app_length in Hin.
    apply elem_of_app in Hin as [?|Hin]; [done|].
    rewrite !elem_of_cons, elem_of_nil in Hin. by destruct Hin as [?|[?|[?|[]]]].
  - rewrite newEvents_logged in Hin.
    apply elem_of_app in Hin as [?|Hin]; [done|].
    destruct silent; [by apply elem_of_nil in Hin|].
    rewrite !elem_of_cons, elem_of_nil in Hin. by destruct Hin as [?|[?|[]]].
Qed.

(** X3: when the new location has a [tasks] folder with an index file, the
    link built has that index file as its custom-task entry, whatever entry
    the stored link had, and no warning is logged. *)
Theorem buildTapObj_attaches_found_index (silent : bool)
    (name location foundPath : string) (others : list string) (st : state)
    (t : TapObj) :
  findPathByName (pathJoin [location]) "tasks" = foundPath :: others →
  foundPath ≠ "" →
  checkPathExists (pathJoin [foundPath; "index.js"]) = true →
  pathJoin [foundPath; "index.js"] ≠ "" →
  (buildTapObj silent name location st).1 = Ret (Some t) →
  t = mkTapObj (Some location) (Some (pathJoin [foundPath; "index.js"]))
  ∧ ∀ s, LogWarn s ∉ newEvents st (buildTapObj silent name location st).2.
Proof.
  intros Hfound Hne%truthy_true Hidx Hfile%truthy_true Hret.
  destruct (buildTapObj_built _ _ _ _ _ Hret) as (r & evs & Hck & -> & Hwarn).
  rewrite (checkCustomTaskFile_result _ location) in Hck by done.
  rewrite Hfound in Hck. simpl in Hck. rewrite Hne, Hidx in Hck. simpl in Hck.
  injection Hck as <- Hlog. simpl. rewrite Hfile. split; [done|].
  intros s Hin%Hwarn.
  rewrite (logged_same_nil _ _ Hlog) in Hin. by apply elem_of_nil in Hin.
Qed.

(** X4: when the new location has no [tasks] folder, the locator reports
    the entry as absent without a warning, and the link built keeps the
    custom-task entry of the link stored under the name, if any. *)
Theorem buildTapObj_without_tasks_folder (silent : bool) (name location : string)
    (st : state) (t : TapObj) :
  truthy_opt (head (findPathByName (pathJoin [location]) "tasks")) = false →
  (buildTapObj silent name location st).1 = Ret (Some t) →
  (∀ tapObj st0, tap_path tapObj = Some location →
                 checkCustomTaskFile tapObj st0 = (Ret None, st0))
  ∧ t = mkTapObj (Some location) (getTapLink (config st) name ≫= tap_tasks)
  ∧ ∀ s, LogWarn s ∉ newEvents st (buildTapObj silent name location st).2.
Proof.
  intros Hnone Hret.
  assert (Hloc : ∀ tapObj st0, tap_path tapObj = Some location →
                               checkCustomTaskFile tapObj st0 = (Ret None, st0)).
  { intros tapObj st0 Hp. rewrite (checkCustomTaskFile_result _ _ _ Hp).
    destruct (head _) as [foundPath|]; [|done]. simpl in Hnone. by rewrite Hnone. }
  split; [done|].
  destruct (buildTapObj_built _ _ _ _ _ Hret) as (r & evs & Hck & -> & Hwarn).
  rewrite Hloc in Hck by done. injection Hck as <- Hlog. split; [done|].
  intros s Hin%Hwarn.
  rewrite (logged_same_nil _ _ Hlog) in Hin. by apply elem_of_nil in Hin.
Qed.

End LinkExtras.

(** X5: after a registration that was not declined, the same registration
    run again, silent or not and whatever the operator then answers,
    leaves the global config in memory and on disk as the first one left
    it. *)
Theorem linkTap_again_keeps_config (W : Collaborators) (answers : string → bool)
    (silent silent' : bool) (name location : string) (st : state) (t : TapObj) :
  (@buildTapObj W silent name location st).1 = Ret (Some t) →
  config (@linkTap (answering answers W) name location silent'
            (@linkTap W name location silent st).2).2
  = config (@linkTap W name location silent st).2
  ∧ disk (@linkTap (answering answers W) name location silent'
            (@linkTap W name location silent st).2).2
    = disk (@linkTap W name location silent st).2.
Proof.
  intros Hret.
  destruct (@linkTap_config W _ _ _ _ _ Hret) as (_ & Hc & Hd & _).
  destruct (@buildTapObj_built W _ _ _ _ _ Hret) as (r & evs & Hck & Ht & _).
  set (st1 := (@linkTap W name location silent st).2) in *.
  destruct (@buildTapObj_store (answering answers W) silent' name location st1)
    as (o2 & evs2 & Hb2 & _).
  rewrite (@linkTap_run (answering answers W) _ _ _ _ _ _ Hb2).
  destruct o2 as [t2|]; [|done]. simpl.
  assert (Hlink : getTapLink (config st1) name = Some t).
  { rewrite Hc. unfold getTapLink. simpl. apply lookup_insert_eq. }
  assert (t2 = t) as ->.
  { destruct (@buildTapObj_built (answering answers W) silent' name location st1 t2)
      as (r2 & evs' & Hck2 & -> & _); [by rewrite Hb2|].
    change (@checkCustomTaskFile (answering answers W))
      with (@checkCustomTaskFile W) in Hck2.
    pose proof (@checkCustomTaskFile_value W (mkTapObj (Some location) None)
                  (mkTapObj (Some location) None) location st st1 eq_refl eq_refl)
      as Hval.
    rewrite Hck, Hck2 in Hval. simpl in Hval. injection Hval as <-.
    rewrite Hlink, Ht. simpl. by destruct (truthy_opt r). }
  rewrite Hc, Hd. simpl. by rewrite insert_insert_eq.
Qed.

(** X5 at an input: [x] is registered at [/b] over the link [x => /a] with
    the operator's consent, then registered again and declined. *)
Lemma linkTap_again_keeps_config_witness :
  let st1 := (@linkTap (LinkScenario.bare true) "x" "/b" false
                LinkScenario.linkedA).2 in
  linkedPath (config st1) "x" = Some "/b"
  ∧ config (@linkTap (answering (λ _, false) (LinkScenario.bare true)) "x" "/b"
              false st1).2 = config st1.
Proof.
  split; [reflexivity|].
  exact (proj1 (linkTap_again_keeps_config (LinkScenario.bare true) (λ _, false)
                  false false "x" "/b" LinkScenario.linkedA
                  (mkTapObj (Some "/b") None) eq_refl)).
Defined.

(** X1 at an input: [x] registered at [/b] over [x => /a], confirmed. *)
Lemma linkTap_stores_built_link_witness :
  getTapLink
    (config (@linkTap (LinkScenario.bare true) "x" "/b" false LinkScenario.linkedA).2)
    "x"
  = Some (mkTapObj (Some "/b") None).
Proof.
  exact (proj1 (proj2
    (@linkTap_stores_built_link (LinkScenario.bare true) false "x" "/b"
       LinkScenario.linkedA (mkTapObj (Some "/b") None) eq_refl))).
Defined.

(** X2 at an input: the prompt of the spec's scenario, answered no. *)
Lemma linkTap_prompts_only_to_overwrite_witness :
  Asked "Overwrite tap link 'x' => '/b'?" false
    ∈ newEvents LinkScenario.linkedA
        (@linkTap (LinkScenario.bare false) "x" "/b" false LinkScenario.linkedA).2
  ∧ is_Some (getTapLink (config LinkScenario.linkedA) "x").
Proof.
  assert (Hin : Asked "Overwrite tap link 'x' => '/b'?" false
                  ∈ newEvents LinkScenario.linkedA
                      (@linkTap (LinkScenario.bare false) "x" "/b" false
                         LinkScenario.linkedA).2).
  { apply (bool_decide_unpack _). by vm_compute. }
  split; [exact Hin|].
  exact (proj1 (proj2 (proj2 (proj2
    (@linkTap_prompts_only_to_overwrite (LinkScenario.bare false) false "x" "/b"
       LinkScenario.linkedA _ false eq_refl Hin))))).
Defined.

(** X3 at an input: [/b/tasks/index.js] exists; the link of [x], which
    carried the index of [/a], gets the one of [/b]. *)
Lemma buildTapObj_attaches_found_index_witness :
  (@buildTapObj
     (Scenario.world true (λ dir, [dir +:+ "/tasks"]) (λ _, true) Scenario.noModules)
     false "x" "/b" LinkScenario.linkedWithTasks).1
  = Ret (Some (mkTapObj (Some "/b") (Some "/b/tasks/index.js"))).
Proof.
  pose proof (@buildTapObj_attaches_found_index
                (Scenario.world true (λ dir, [dir +:+ "/tasks"]) (λ _, true)
                   Scenario.noModules)
                false "x" "/b" "/b/tasks" [] LinkScenario.linkedWithTasks
                (mkTapObj (Some "/b") (Some "/b/tasks/index.js")) eq_refl) as Hthm.
  destruct Hthm as [_ _]; [discriminate | reflexivity | discriminate | reflexivity |].
  reflexivity.
Defined.

(** X4 at an input: [/b] has no [tasks] folder. *)
Lemma buildTapObj_without_tasks_folder_witness :
  mkTapObj (Some "/b") (Some "/a/tasks/index.js")
  = mkTapObj (Some "/b")
      (getTapLink (config LinkScenario.linkedWithTasks) "x" ≫= tap_tasks)
  ∧ (@buildTapObj (LinkScenario.bare true) false "x" "/b"
       LinkScenario.linkedWithTasks).1
    = Ret (Some (mkTapObj (Some "/b") (Some "/a/tasks/index.js"))).
Proof.
  split; [|reflexivity].
  exact (proj1 (proj2
    (@buildTapObj_without_tasks_folder (LinkScenario.bare true) false "x" "/b"
       LinkScenario.linkedWithTasks
       (mkTapObj (Some "/b") (Some "/a/tasks/index.js")) eq_refl eq_refl))).
Defined.

(** * Further properties of the resolution (findTask.js) *)

Section FindTaskExtras.
Context `{Collaborators}.

(** A direct lookup is made only after the link check came back empty. *)
Lemma direct_lookup_after_empty_check (tasks : Tasks) (command : string)
    (options : ref) (st : state) (name : string) :
  TaskLookup Direct name ∈ newEvents st (findTask tasks command options st).2 →
  (checkLinkedTaps tasks command options st).1 = Ret None.
Proof.
  destruct (findTask_store tasks command options st) as (ext & evs & -> & Hcases).
  rewrite newEvents_grown. intros Hin.
  destruct Hcases as [[Hnone _]|[_ Hevs]]; [done|]. exfalso.
  apply elem_of_cons in Hin as [?|Hin]; [done|].
  destruct Hevs as [->|(taskFile & err & -> & _)].
  - by apply list_elem_of_singleton in Hin.
  - unfold loadFailure in Hin. rewrite !elem_of_cons, elem_of_nil in Hin.
    by destruct Hin as [?|[?|[?|[?|[]]]]].
Qed.

(** Validation in closed form: [validateTask] is asked about the task
    found, with the help flag of the last element of the caller's array. *)
Lemma validated_run (foundTask : TaskData) (options : ref) (st : state) :
  validated foundTask options st
  = match validateTask (td_task foundTask)
            (hasHelpArg (last_elem (contents options st))) with
    | inl e => (Throw e, st)
    | inr valid =>
        (Ret (if valid
              then match td_task foundTask with
                   | Some _ => Resolved foundTask
                   | None => EmptyObject
                   end
              else Falsy), st)
    end.
Proof.
  unfold validated. rewrite bind_run. simpl. rewrite bind_run.
  destruct (td_task foundTask) eqn:Ht; simpl; rewrite ?Ht;
    by destruct (validateTask _ _) as [e|[]].
Qed.

(** Arrays that exist keep their contents through allocations and logs. *)
Lemma contents_grown (r : ref) (opts : list string) (ext : list (list string))
    (evs : list event) (st : state) :
  arrays st !! r = Some opts →
  contents r (grown ext evs st) = opts.
Proof.
  intros Hr. unfold contents, grown. simpl. by rewrite (lookup_app_l_Some _ _ _ _ Hr).
Qed.

Lemma contents_logged (r : ref) (evs : list event) (st : state) :
  contents r (logged evs st) = contents r st.
Proof. done. Qed.

(** Once the task set is there, the reroute returns or throws. *)
Lemma reroute_no_exit (tapObj : TapObj) (tapPath : string) (c : GlobalConfig)
    (tasks allTasks : Tasks) (command : string) (options : ref) (st : state)
    (code : Z) :
  allTasksFor tapObj c tasks command options st = (Ret allTasks, st) →
  (reroute tapObj tapPath c tasks command options st).1 ≠ Exit code.
Proof.
  intros Hall. rewrite (reroute_run _ tapPath _ _ _ _ _ _ Hall).
  destruct (parseArgs _ _ _ _ _); simpl; [done|].
  destruct (from_option _ _ _); simpl; [|done].
  by destruct (injectService _ _ _).
Qed.

(** The task data [findTask] validates: the one of the direct lookup when
    the link check came back empty, else the one of the reroute. *)
Lemma findTask_found (tasks : Tasks) (command : string) (options : ref)
    (st st' : state) (res : resolved) :
  findTask tasks command options st = (Ret res, st') →
  ∃ found ext evs,
    st' = grown ext evs st
    ∧ validated found options st' = (Ret res, st')
    ∧ ((checkLinkedTaps tasks command options st).1 = Ret None
       ∧ found = mkTaskData (getTask tasks command (contents options st)).1
                   (length (arrays st)) None
       ∨ checkLinkedTaps tasks command options st = (Ret (Some found), st')).
Proof.
  destruct (linkedPath_cases (config st) command)
    as [Hinert|(tapObj & tapPath & Hlink & Hpath & Hne)].
  - rewrite (findTask_inert _ _ _ _ Hinert).
    rewrite (checkLinkedTaps_inert _ _ _ _ Hinert).
    unfold directLookup. rewrite bind_run, callGetTask_run. simpl.
    rewrite contents_logged. intros Hval.
    pose proof (validated_store
                  (mkTaskData (getTask tasks command (contents options st)).1
                     (length (arrays st)) None) options
                  (grown [(getTask tasks command (contents options st)).2]
                     [TaskLookup Direct command] (logged [LinkLookup command] st)))
      as Hst.
    rewrite Hval in Hst. simpl in Hst. subst st'.
    eexists _, [_], [_; _]. split; [|split; [exact Hval|by left]].
    unfold grown, logged. simpl. by rewrite <- app_assoc.
  - rewrite (findTask_linked _ _ _ _ _ _ Hlink Hpath Hne).
    rewrite (checkLinkedTaps_linked _ _ _ _ _ _ Hlink Hpath Hne).
    rewrite !bind_run.
    destruct (reroute_store tapObj tapPath (config st) tasks command options
                (logged [LinkLookup command] st))
      as [(allTasks & ext & _ & Hst & _)|(taskFile & err & _ & _ & Hexit)].
    2:{ by rewrite Hexit. }
    destruct (reroute _ _ _ _ _ _ _) as [[found|code|e] st1] eqn:Hre; [|done..].
    simpl in Hst. subst st1. intros Hval.
    pose proof (validated_store found options
                  (grown ext [TaskLookup ViaTap "tap"] (logged [LinkLookup command] st)))
      as Hst.
    rewrite Hval in Hst. simpl in Hst. subst st'.
    exists found, ext, [LinkLookup command; TaskLookup ViaTap "tap"].
    split; [|split; [exact Hval|by right]].
    unfold grown, logged. simpl. by rewrite <- app_assoc.
Qed.

(** X7: [findTask] hands back task data only when it holds a task that
    [validateTask] accepted, the help flag being the one of the last
    element of the caller's options; it hands back the empty object only
    when no task was found and [validateTask] accepted that. *)
Theorem findTask_resolved_has_task (tasks : Tasks) (command : string)
    (options : ref) (st st' : state) (opts : list string) (res : resolved) :
  arrays st !! options = Some opts →
  findTask tasks command options st = (Ret res, st') →
  (∀ td, res = Resolved td →
         ∃ task, td_task td = Some task
                 ∧ validateTask (Some task) (hasHelpArg (last_elem opts)) = inr true)
  ∧ (res = EmptyObject →
     validateTask None (hasHelpArg (last_elem opts)) = inr true).
Proof.
  intros Hopts Hrun.
  destruct (findTask_found _ _ _ _ _ _ Hrun) as (found & ext & evs & -> & Hval & _).
  rewrite validated_run, (contents_grown _ _ _ _ _ Hopts) in Hval.
  destruct (validateTask _ _) as [e|valid] eqn:Hv; [done|].
  injection Hval as <-. destruct valid; [|by split].
  destruct (td_task found) as [task|] eqn:Ht; split; try done.
  intros td [= <-]. exists task. by rewrite Ht.
Qed.

(** X8: a resolution ends the process only with status 1, and only when
    the command is linked to a tap with a path whose task module failed to
    load; the error's message is in the trace. *)
Theorem findTask_exits_only_on_failed_load (tasks : Tasks) (command : string)
    (options : ref) (st : state) (code : Z) :
  (findTask tasks command options st).1 = Exit code →
  code = 1
  ∧ ∃ tapObj tapPath taskFile err,
      getTapLink (config st) command = Some tapObj
      ∧ tap_path tapObj = Some tapPath ∧ tapPath ≠ ""
      ∧ tap_tasks tapObj = Some taskFile
      ∧ loadTasks (mkLoaderArgs (config st) tasks command (contents options st))
          taskFile = inl err
      ∧ LogError (message err)
          ∈ newEvents st (findTask tasks command options st).2.
Proof.
  destruct (linkedPath_cases (config st) command)
    as [Hinert|(tapObj & tapPath & Hlink & Hpath & Hne)].
  - rewrite (findTask_inert _ _ _ _ Hinert). unfold directLookup.
    rewrite bind_run, callGetTask_run, validated_run.
    by destruct (validateTask _ _).
  - rewrite (findTask_linked _ _ _ _ _ _ Hlink Hpath Hne).
    destruct (allTasksFor_run tapObj (config st) tasks command options
                (logged [LinkLookup command] st))
      as [[allTasks Hall]|(taskFile & err & Htasks & Hload & Hall)].
    + pose proof (reroute_no_exit tapObj tapPath _ _ _ _ _ _ code Hall) as Hno.
      rewrite bind_run.
      destruct (reroute _ _ _ _ _ _ _) as [[found|code'|e] st1]; simpl in *;
        [|by intros [= ->]|done].
      rewrite validated_run. by destruct (validateTask _ _).
    + assert (Hexit : reroute tapObj tapPath (config st) tasks command options
                        (logged [LinkLookup command] st)
                      = (Exit 1, logged (loadFailure taskFile err)
                                   (logged [LinkLookup command] st))).
      { unfold reroute. by rewrite bind_run, Hall. }
      rewrite (then_validated_exit _ _ _ _ _ Hexit). simpl. intros [= <-].
      split; [done|]. exists tapObj, tapPath, taskFile, err.
      do 5 (split; [done|]).
      rewrite logged_logged, newEvents_logged. unfold loadFailure. simpl.
      rewrite !elem_of_cons. tauto.
Qed.

Lemma allTasksFor_logged (tapObj : TapObj) (c : GlobalConfig) (tasks : Tasks)
    (command : string) (options : ref) (evs : list event) (st : state)
    (allTasks : Tasks) :
  allTasksFor tapObj c tasks command options st = (Ret allTasks, st) →
  allTasksFor tapObj c tasks command options (logged evs st)
  = (Ret allTasks, logged evs st).
Proof.
  unfold allTasksFor. destruct (tap_tasks tapObj) as [taskFile|]; [|by intros [= ->]].
  destruct (negb (truthy taskFile)); [by intros [= ->]|].
  rewrite !bind_run. simpl. rewrite contents_logged.
  destruct (loadTasks (mkLoaderArgs c tasks command (contents options st)) taskFile)
    as [err|custom] eqn:Hl.
  - by rewrite (getCustomTasks_fail _ _ _ _ Hl).
  - unfold getCustomTasks. rewrite Hl. by intros [= <-].
Qed.

(** X10: the arguments of a rerouted command are parsed from the options
    as the lookup of [tap] returned them, before the tap token is spliced
    in, and from the single parameter [tap = command]; the parameters
    returned end up in the task data.  An error thrown by [parseArgs], or
    by [injectService] for a task that declares [inject], is thrown by
    [findTask]. *)
Theorem reroute_parses_before_token (tasks allTasks : Tasks) (command : string)
    (options : ref) (st : state) (tapObj : TapObj) (tapPath : string) :
  getTapLink (config st) command = Some tapObj →
  tap_path tapObj = Some tapPath →
  tapPath ≠ "" →
  allTasksFor tapObj (config st) tasks command options st = (Ret allTasks, st) →
  let found := getTask allTasks "tap" (contents options st) in
  let parsed := parseArgs found.1 found.2 command {["tap" := command]} (config st) in
  let built params := mkTaskData found.1 (S (length (arrays st))) (Some params) in
  (∀ e, parsed = inl e → (findTask tasks command options st).1 = Throw e)
  ∧ (∀ params, parsed = inr params →
       from_option task_inject false found.1 = false →
       (checkLinkedTaps tasks command options st).1 = Ret (Some (built params))
       ∧ contents (S (length (arrays st)))
           (checkLinkedTaps tasks command options st).2
         = beforeLast ("tap=" +:+ command) found.2)
  ∧ (∀ params e, parsed = inr params →
       from_option task_inject false found.1 = true →
       injectService (built params) command tapPath = inl e →
       (findTask tasks command options st).1 = Throw e).
Proof.
  intros Hlink Hpath Hne Hall found parsed built.
  pose proof (allTasksFor_logged _ _ _ _ _ [LinkLookup command] _ _ Hall) as Hall1.
  pose proof (reroute_run _ tapPath _ _ _ _ _ _ Hall1) as Hre. simpl in Hre.
  rewrite contents_logged in Hre. fold found parsed in Hre.
  rewrite (findTask_linked _ _ _ _ _ _ Hlink Hpath Hne).
  rewrite (checkLinkedTaps_linked _ _ _ _ _ _ Hlink Hpath Hne).
  rewrite !bind_run, Hre.
  split; [|split].
  - by intros e ->.
  - intros params -> ->. simpl. split; [done|].
    apply (contents_grown_second _ _ _ (logged [LinkLookup command] st)).
  - intros params e -> -> Hsvc. simpl in *. fold (built params).
    by rewrite Hsvc.
Qed.

(** X11: when the command has no usable link and [getTask] finds a task
    for it that [validateTask] accepts, [findTask] hands back that task
    with the options [getTask] left for it, in an array of their own,
    without parameters and without a tap token; the trace holds the lookup
    of the link and the direct lookup. *)
Theorem findTask_direct_resolution (tasks : Tasks) (command : string)
    (options : ref) (st : state) (opts rest : list string) (task : TaskDef) :
  truthy_opt (linkedPath (config st) command) = false →
  arrays st !! options = Some opts →
  getTask tasks command opts = (Some task, rest) →
  validateTask (Some task) (hasHelpArg (last_elem opts)) = inr true →
  findTask tasks command options st
  = (Ret (Resolved (mkTaskData (Some task) (length (arrays st)) None)),
     grown [rest] [LinkLookup command; TaskLookup Direct command] st)
  ∧ contents (length (arrays st)) (findTask tasks command options st).2 = rest.
Proof.
  intros Hinert Hopts Hget Hvalid.
  assert (Hrun : findTask tasks command options st
                 = (Ret (Resolved (mkTaskData (Some task) (length (arrays st)) None)),
                    grown [rest] [LinkLookup command; TaskLookup Direct command] st)).
  { rewrite (findTask_inert _ _ _ _ Hinert). unfold directLookup.
    rewrite bind_run, callGetTask_run, validated_run. simpl.
    rewrite contents_logged.
    rewrite (contents_grown options opts _ _ (logged [LinkLookup command] st))
      by done.
    assert (contents options st = opts) as -> by (unfold contents; by rewrite Hopts).
    rewrite Hget. simpl. rewrite Hvalid.
    unfold grown, logged. simpl. by rewrite <- app_assoc. }
  split; [done|]. rewrite Hrun. simpl.
  unfold contents, grown. simpl. by rewrite list_lookup_middle.
Qed.

End FindTaskExtras.

(** X7 at an input: [build], whose link has no path, resolves to the
    built-in task. *)
Lemma findTask_resolved_has_task_witness :
  ∃ task,
    Some Scenario.buildTask = Some task
    ∧ @validateTask ResolveScenario.plain (Some task)
        (@hasHelpArg ResolveScenario.plain (last_elem ["--verbose"])) = inr true.
Proof.
  exact (proj1
    (@findTask_resolved_has_task ResolveScenario.plain Scenario.builtins "build"
       0%nat ResolveScenario.buildPathless
       (@findTask ResolveScenario.plain Scenario.builtins "build" 0%nat
          ResolveScenario.buildPathless).2
       ["--verbose"]
       (Resolved (mkTaskData (Some Scenario.buildTask) 1 None))
       eq_refl eq_refl)
    (mkTaskData (Some Scenario.buildTask) 1 None) eq_refl).
Defined.

(** X8 at an input: the task index of [mytap] does not load. *)
Lemma findTask_exits_only_on_failed_load_witness :
  (@findTask ResolveScenario.brokenModule Scenario.builtins "mytap" 0%nat
     ResolveScenario.withTasks).1 = Exit 1
  ∧ ∃ taskFile err,
      @loadTasks ResolveScenario.brokenModule
        (mkLoaderArgs (config ResolveScenario.withTasks) Scenario.builtins "mytap"
           (contents 0%nat ResolveScenario.withTasks))
        taskFile = inl err.
Proof.
  split; [reflexivity|].
  destruct (@findTask_exits_only_on_failed_load ResolveScenario.brokenModule
              Scenario.builtins "mytap" 0%nat ResolveScenario.withTasks 1 eq_refl)
    as (_ & tapObj & tapPath & taskFile & err & _ & _ & _ & _ & Hload & _).
  exists taskFile, err. exact Hload.
Defined.

(** X10 at the spec's scenario: the parameters of the rerouted [mytap]. *)
Lemma reroute_parses_before_token_witness :
  (@checkLinkedTaps ResolveScenario.plain Scenario.builtins "mytap" 0%nat
     ResolveScenario.verbose).1
  = Ret (Some (mkTaskData (Some Scenario.tapTask) 2 (Some {["tap" := "mytap"]}))).
Proof.
  refine (proj1 (proj1 (proj2
    (@reroute_parses_before_token ResolveScenario.plain Scenario.builtins
       Scenario.builtins "mytap" 0%nat ResolveScenario.verbose ResolveScenario.mytap
       "/repos/mytap" eq_refl eq_refl _ eq_refl))
    {["tap" := "mytap"]} eq_refl eq_refl)).
  discriminate.
Defined.

(** X11 at an input: [build] has no link and is found among the
    built-in tasks. *)
Lemma findTask_direct_resolution_witness :
  @findTask ResolveScenario.plain Scenario.builtins "build" 0%nat
    ResolveScenario.verbose
  = (Ret (Resolved (mkTaskData (Some Scenario.buildTask) 1 None)),
     grown [["--verbose"]] [LinkLookup "build"; TaskLookup Direct "build"]
       ResolveScenario.verbose).
Proof.
  exact (proj1
    (@findTask_direct_resolution ResolveScenario.plain Scenario.builtins "build"
       0%nat ResolveScenario.verbose ["--verbose"] ["--verbose"] Scenario.buildTask
       eq_refl eq_refl eq_refl eq_refl)).
Defined.

(** * The webpack aliases (findTask.js, second part) *)

(** Writing a table of entries with distinct keys into a map, one after
    the other: the keys of the table get the table's values, the others
    keep theirs. *)
Lemma foldl_insert_lookup (g : string → string) (l : list (string * string))
    (m : gmap string string) (name : string) :
  NoDup l.*1 →
  foldl (λ acc entry, <[entry.1 := g entry.2]> acc) m l !! name
  = match (list_to_map l : gmap string string) !! name with
    | Some v => Some (g v)
    | None => m !! name
    end.
Proof.
  revert m. induction l as [|[k v] l IH]; intros m Hnd; [done|].
  apply NoDup_cons in Hnd as [Hk Hnd]. simpl. rewrite (IH _ Hnd).
  destruct (decide (k = name)) as [->|Hne].
  - rewrite lookup_insert_eq.
    by rewrite (not_elem_of_list_to_map_1 _ _ Hk), lookup_insert_eq.
  - rewrite (lookup_insert_ne (list_to_map l)) by done.
    destruct (list_to_map l !! name); [done|]. by rewrite lookup_insert_ne.
Qed.

Lemma resolveCoreAlias_NoDup : NoDup Webpack.resolveCoreAlias.*1.
Proof. apply (bool_decide_unpack _). by vm_compute. Qed.

Section WebpackFacts.
Context {BabelConfig : Type} `{Webpack.Environment BabelConfig}.

Lemma buildResolveCoreAlias_lookup (curAlias : option (gmap string string))
    (name : string) :
  Webpack.buildResolveCoreAlias curAlias !! name
  = match (list_to_map Webpack.resolveCoreAlias : gmap string string) !! name with
    | Some aliasPath =>
        Some (Webpack.join [Webpack.kegPath; "node_modules"; aliasPath])
    | None => default ∅ curAlias !! name
    end.
Proof.
  unfold Webpack.buildResolveCoreAlias.
  apply (foldl_insert_lookup
           (λ aliasPath, Webpack.join [Webpack.kegPath; "node_modules"; aliasPath])).
  apply resolveCoreAlias_NoDup.
Qed.

(** X12: in the aliases built, each of the seven core dependencies points
    into [node_modules] of the keg, at the path the table gives for it and
    whatever the aliases passed in said about it; every other alias passed
    in is kept as it was, and nothing else is added. *)
Theorem buildResolveCoreAlias_aliases (curAlias : option (gmap string string)) :
  (∀ name aliasPath,
     (name, aliasPath) ∈ Webpack.resolveCoreAlias →
     Webpack.buildResolveCoreAlias curAlias !! name
     = Some (Webpack.join [Webpack.kegPath; "node_modules"; aliasPath]))
  ∧ (∀ name,
       name ∉ Webpack.resolveCoreAlias.*1 →
       Webpack.buildResolveCoreAlias curAlias !! name = default ∅ curAlias !! name)
  ∧ dom (Webpack.buildResolveCoreAlias curAlias)
    = dom (default ∅ curAlias) ∪ list_to_set Webpack.resolveCoreAlias.*1.
Proof.
  split; [|split].
  - intros name aliasPath Hin. rewrite buildResolveCoreAlias_lookup.
    by rewrite (elem_of_list_to_map_1 _ _ _ resolveCoreAlias_NoDup Hin).
  - intros name Hout. rewrite buildResolveCoreAlias_lookup.
    by rewrite (not_elem_of_list_to_map_1 _ _ Hout).
  - apply set_eq. intros name.
    rewrite elem_of_union, !elem_of_dom, elem_of_list_to_set.
    rewrite buildResolveCoreAlias_lookup.
    destruct (list_to_map Webpack.resolveCoreAlias !! name) as [aliasPath|] eqn:Hl.
    + split; [|by eauto]. intros _. right.
      apply list_elem_of_fmap. exists (name, aliasPath). split; [done|].
      by apply elem_of_list_to_map_2.
    + split; [by left|]. intros [?|Hin]; [done|].
      by apply not_elem_of_list_to_map in Hl.
Qed.

(** X13: building the aliases is idempotent, and two alias maps that agree
    outside the core dependencies give the same result. *)
Theorem buildResolveCoreAlias_idempotent (curAlias other : option (gmap string string)) :
  Webpack.buildResolveCoreAlias (Some (Webpack.buildResolveCoreAlias curAlias))
  = Webpack.buildResolveCoreAlias curAlias
  ∧ ((∀ name, name ∉ Webpack.resolveCoreAlias.*1 →
              default ∅ curAlias !! name = default ∅ other !! name) →
     Webpack.buildResolveCoreAlias curAlias = Webpack.buildResolveCoreAlias other).
Proof.
  split.
  - apply map_eq. intros name.
    rewrite (buildResolveCoreAlias_lookup (Some _)). cbn [default from_option id].
    rewrite buildResolveCoreAlias_lookup.
    by destruct (list_to_map Webpack.resolveCoreAlias !! name).
  - intros Hagree. apply map_eq. intros name. rewrite !buildResolveCoreAlias_lookup.
    destruct (list_to_map Webpack.resolveCoreAlias !! name) eqn:Hl; [done|].
    apply Hagree. by apply not_elem_of_list_to_map in Hl.
Qed.

(** X14: whatever config expo hands over, the config returned resolves
    every core dependency in the keg's [node_modules], keeps the module
    directories expo had, in their order and ahead of the three it adds
    ([node_modules], then the one of the tap, then the one of the keg),
    keeps expo's rules in their order behind the babel rule of the tap,
    sets the global object and the file name of the source maps, and
    takes its mode from [NODE_ENV]: the mode is the value of [NODE_ENV]
    when that is set and not empty, and [development] otherwise. *)
Theorem webpackConfig_extends_expo (config : Webpack.Config BabelConfig) :
  (∀ name aliasPath,
     (name, aliasPath) ∈ Webpack.resolveCoreAlias →
     Webpack.resolveAlias (Webpack.webpackConfig config) ≫= (.!! name)
     = Some (Webpack.join [Webpack.kegPath; "node_modules"; aliasPath]))
  ∧ Webpack.resolveModules (Webpack.webpackConfig config)
    = Some (default [] (Webpack.resolveModules config)
            ++ ["node_modules";
                Webpack.resolve [Webpack.tapPath; "node_modules"];
                Webpack.resolve [Webpack.kegPath; "node_modules"]])
  ∧ (head (Webpack.rules (Webpack.webpackConfig config)) = Some Webpack.babelRule
     ∧ tail (Webpack.rules (Webpack.webpackConfig config)) = Webpack.rules config
     ∧ Webpack.rule_include Webpack.babelRule = [Webpack.resolve [Webpack.tapPath]])
  ∧ Webpack.globalObject (Webpack.webpackConfig config) = Some "this"
  ∧ Webpack.sourceMapFilename (Webpack.webpackConfig config)
    = Some "[file].map[query]"
  ∧ (∀ env, Webpack.NODE_ENV = Some env → env ≠ "" →
            Webpack.mode (Webpack.webpackConfig config) = Some env)
  ∧ (Webpack.NODE_ENV = None ∨ Webpack.NODE_ENV = Some "" →
     Webpack.mode (Webpack.webpackConfig config) = Some "development").
Proof.
  split; [|split; [|split; [|split; [|split; [|split]]]]]; try done.
  - intros name aliasPath Hin. cbn [Webpack.webpackConfig Webpack.resolveAlias mbind option_bind].
    rewrite buildResolveCoreAlias_lookup.
    by rewrite (elem_of_list_to_map_1 _ _ _ resolveCoreAlias_NoDup Hin).
  - intros env Henv Hne%truthy_true. simpl. by rewrite Henv, Hne.
  - intros [Henv|Henv]; simpl; by rewrite Henv.
Qed.

End WebpackFacts.

(** X12 at an input: expo's alias of [react] is replaced, the alias of
    [lodash] is kept. *)
Lemma buildResolveCoreAlias_aliases_witness :
  @Webpack.buildResolveCoreAlias unit Webpack.exampleEnv
    (Some {["react" := "/expo/react"; "lodash" := "/expo/lodash"]}) !! "react"
  = Some "/keg/keg-core/node_modules/react"
  ∧ @Webpack.buildResolveCoreAlias unit Webpack.exampleEnv
      (Some {["react" := "/expo/react"; "lodash" := "/expo/lodash"]}) !! "lodash"
    = Some "/expo/lodash".
Proof.
  split.
  - refine (proj1 (@buildResolveCoreAlias_aliases unit Webpack.exampleEnv _)
              "react" "react" _).
    apply (bool_decide_unpack _). by vm_compute.
  - refine (proj1 (proj2 (@buildResolveCoreAlias_aliases unit Webpack.exampleEnv
                            (Some {["react" := "/expo/react";
                                    "lodash" := "/expo/lodash"]})))
              "lodash" _).
    apply (bool_decide_unpack _). by vm_compute.
Defined.

(** X13 at an input: an alias of [react] passed in makes no difference. *)
Lemma buildResolveCoreAlias_idempotent_witness :
  @Webpack.buildResolveCoreAlias unit Webpack.exampleEnv (Some {["react" := "/expo/react"]})
  = @Webpack.buildResolveCoreAlias unit Webpack.exampleEnv None.
Proof.
  refine (proj2 (@buildResolveCoreAlias_idempotent unit Webpack.exampleEnv
                   (Some {["react" := "/expo/react"]}) None) _).
  intros name Hout. cbn [default from_option id]. rewrite lookup_singleton_ne; [done|].
  intros <-. apply Hout. apply (bool_decide_unpack _). by vm_compute.
Defined.

(** X14 at an input: a config of expo without aliases and with one module
    directory, built with [NODE_ENV=production]. *)
Lemma webpackConfig_extends_expo_witness :
  let expo := Webpack.mkWebpack None [] None None (Some ["/expo/node_modules"]) None in
  Webpack.resolveAlias (@Webpack.webpackConfig unit Webpack.productionEnv expo)
    ≫= (.!! "react-native")
  = Some "/keg/keg-core/node_modules/react-native-web"
  ∧ Webpack.mode (@Webpack.webpackConfig unit Webpack.productionEnv expo)
    = Some "production".
Proof.
  intros expo.
  pose proof (@webpackConfig_extends_expo unit Webpack.productionEnv expo)
    as (Halias & _ & _ & _ & _ & Hmode & _).
  split.
  - apply (Halias "react-native" "react-native-web").
    apply (bool_decide_unpack _). by vm_compute.
  - apply (Hmode "production"); [reflexivity | discriminate].
Defined.

(** * The docker commands (libs/docker/commands.js) *)

Lemma trimEnd_cons_keep (a : Ascii.ascii) (s : string) :
  Ascii.is_space a = false →
  Docker.trimEnd (String a s) = String a (Docker.trimEnd s).
Proof. intros Ha. simpl. destruct (Docker.trimEnd s); by rewrite ?Ha. Qed.

Lemma trimEnd_idempotent (s : string) :
  Docker.trimEnd (Docker.trimEnd s) = Docker.trimEnd s.
Proof.
  induction s as [|a s IH]; [done|]. simpl.
  destruct (Docker.trimEnd s) as [|b t] eqn:Ht.
  - destruct (Ascii.is_space a) eqn:Ha; [done|]. simpl. by rewrite Ha.
  - change (Docker.trimEnd (String a (String b t)))
      with (match Docker.trimEnd (String b t) with
            | EmptyString =>
                if Ascii.is_space a then EmptyString else String a EmptyString
            | u => String a u
            end).
    by rewrite IH.
Qed.

Lemma trimStart_head (s : string) :
  Docker.trimStart s = EmptyString
  ∨ ∃ a t, Docker.trimStart s = String a t ∧ Ascii.is_space a = false.
Proof.
  induction s as [|a s IH]; [by left|]. simpl.
  destruct (Ascii.is_space a) eqn:Ha; [done|]. right. by exists a, s.
Qed.

Lemma trimStart_keep (a : Ascii.ascii) (s : string) :
  Ascii.is_space a = false → Docker.trimStart (String a s) = String a s.
Proof. intros Ha. simpl. by rewrite Ha. Qed.

Lemma trim_idempotent (s : string) : Docker.trim (Docker.trim s) = Docker.trim s.
Proof.
  unfold Docker.trim.
  destruct (trimStart_head s) as [->|(a & t & -> & Ha)]; [done|].
  rewrite (trimEnd_cons_keep _ _ Ha), (trimStart_keep _ _ Ha).
  rewrite <- (trimEnd_cons_keep _ _ Ha). apply trimEnd_idempotent.
Qed.

(** A line that begins with [docker] still does once trimmed. *)
Lemma trim_docker (rest : string) :
  Docker.trim ("docker" +:+ rest) = "docker" +:+ Docker.trimEnd rest.
Proof.
  unfold Docker.trim. cbv [String.append].
  rewrite trimStart_keep by done. by rewrite !trimEnd_cons_keep by done.
Qed.

Lemma prefix_docker (rest : string) : String.prefix "docker" ("docker" +:+ rest) = true.
Proof.
  cbv [String.append]. simpl. by destruct rest.
Qed.

Section DockerFacts.
Context {Value : Type} `{Docker.Api Value}.

Lemma cmdToRun_docker (args : Docker.CliArgs Value) (st : Docker.store) :
  String.prefix "docker" (Docker.cmdToRun args st) = true
  ∧ Docker.trim (Docker.cmdToRun args st) = Docker.cmdToRun args st.
Proof.
  unfold Docker.cmdToRun. split; [|apply trim_idempotent].
  set (tail := _ +:+ " " +:+ _ +:+ " " +:+ _).
  change ("docker " +:+ tail) with ("docker" +:+ (" " +:+ tail)).
  rewrite trim_docker. apply prefix_docker.
Qed.

(** What [dockerCli] does to the store: one command run, announced first
    when [log] is set; the arrays stay. *)
Lemma dockerCli_store (args : Docker.CliArgs Value) (st : Docker.store) :
  Docker.trace (Docker.dockerCli args st).2
  = Docker.trace st
    ++ (if Docker.log args
        then [Docker.SpacedMsg "  Running command: " (Docker.cmdToRun args st)]
        else [])
    ++ [Docker.Executed (Docker.cmdToRun args st)]
  ∧ Docker.arrays (Docker.dockerCli args st).2 = Docker.arrays st.
Proof.
  unfold Docker.dockerCli. split.
  - destruct (truthy_opt _), (Docker.log args); simpl; by rewrite <- ?app_assoc.
  - by destruct (truthy_opt _), (Docker.log args).
Qed.

(** X15: [dockerCli] runs exactly one command, after announcing it when
    [log] is set, and changes no array; the command begins with [docker]
    and has no white space at either end; with an empty option array, no
    [force] and no [format] it is [docker] alone. *)
Theorem dockerCli_runs_one_docker_command (args : Docker.CliArgs Value)
    (st : Docker.store) :
  Docker.trace (Docker.dockerCli args st).2
  = Docker.trace st
    ++ (if Docker.log args
        then [Docker.SpacedMsg "  Running command: " (Docker.cmdToRun args st)]
        else [])
    ++ [Docker.Executed (Docker.cmdToRun args st)]
  ∧ Docker.arrays (Docker.dockerCli args st).2 = Docker.arrays st
  ∧ String.prefix "docker" (Docker.cmdToRun args st) = true
  ∧ Docker.trim (Docker.cmdToRun args st) = Docker.cmdToRun args st
  ∧ (∀ r, Docker.opts args = Docker.OptArray r →
          Docker.read r st = [] →
          Docker.force args = false →
          Docker.format args = "" →
          Docker.cmdToRun args st = "docker").
Proof.
  destruct (cmdToRun_docker args st) as [Hpre Htrim].
  destruct (dockerCli_store args st) as [Htrace Harrays].
  do 4 (split; [done|]).
  intros r Hopts Hread Hforce Hformat. unfold Docker.cmdToRun.
  by rewrite Hopts, Hread, Hforce, Hformat.
Qed.

(** X16: [dynamicCmd] called with an option array works on that very
    array: when the array does not begin with [type], [type] is put in
    front of it, in place, so the caller's array is changed; when it does,
    the array is left alone.  Either way the command run is [docker]
    followed by the array, which now begins with [type] exactly once more
    than what followed it before, [cmdSuccess] receives the option after
    [type], no other array changes, and a second call with the same array
    leaves it as the first did. *)
Theorem dynamicCmd_puts_type_first (args : Docker.CliArgs Value) (type : string)
    (st : Docker.store) (r : ref) (given : list string) :
  Docker.opts args = Docker.OptArray r →
  Docker.arrays st !! r = Some given →
  let rest := if bool_decide (head given = Some type) then tail given else given in
  let cmd :=
    Docker.trim ("docker " +:+ Docker.trim (String.concat " " (type :: rest))
                 +:+ " " +:+ (if Docker.force args then "--force" else "")
                 +:+ " " +:+ (if bool_decide (Docker.format args = "json")
                              then Docker.jsonFormat else Docker.format args)) in
  let result :=
    if truthy_opt (Docker.executeCmd cmd).1
    then Docker.apiError (default "" (Docker.executeCmd cmd).1)
           (Docker.errResponse args) (Docker.skipError args)
    else Docker.apiSuccess (Docker.executeCmd cmd).2 (Docker.format args) in
  Docker.arrays (Docker.dynamicCmd args type st).2 !! r = Some (type :: rest)
  ∧ (∀ r' v, r' ≠ r → Docker.arrays st !! r' = Some v →
             Docker.arrays (Docker.dynamicCmd args type st).2 !! r' = Some v)
  ∧ Docker.Executed cmd ∈ Docker.trace (Docker.dynamicCmd args type st).2
  ∧ (Docker.dynamicCmd args type st).1
    = match result with
      | Ret res => Docker.cmdSuccess (head rest) res
      | Exit code => Exit code
      | Throw e => Throw e
      end
  ∧ Docker.arrays
      (Docker.dynamicCmd args type (Docker.dynamicCmd args type st).2).2 !! r
    = Some (type :: rest).
Proof.
  intros Hopts Hgiven rest cmd result.
  assert (Hstep : ∀ st0 given0,
    Docker.arrays st0 !! r = Some given0 →
    let rest0 := if bool_decide (head given0 = Some type) then tail given0
                 else given0 in
    Docker.read r (Docker.ensureType r type st0) = type :: rest0
    ∧ Docker.arrays (Docker.ensureType r type st0) !! r = Some (type :: rest0)
    ∧ Docker.trace (Docker.ensureType r type st0) = Docker.trace st0
    ∧ ∀ r' v, r' ≠ r → Docker.arrays st0 !! r' = Some v →
              Docker.arrays (Docker.ensureType r type st0) !! r' = Some v).
  { intros st0 given0 Hg rest0. unfold Docker.ensureType, Docker.read. rewrite Hg.
    simpl. subst rest0. case_bool_decide as Hhead; simpl.
    - destruct given0 as [|x xs]; [done|]. injection Hhead as ->.
      rewrite Hg. done.
    - rewrite list_lookup_insert_eq by (by apply lookup_lt_Some in Hg).
      repeat split; try done. intros r' v Hne Hv.
      by rewrite list_lookup_insert_ne. }
  set (args' := Docker.mkCliArgs (Docker.OptArray r) (Docker.errResponse args)
                  (Docker.log args) (Docker.skipError args) (Docker.format args)
                  (Docker.force args)).
  assert (Hrun : ∀ st0,
    Docker.dynamicCmd args type st0
    = Docker.bindD (Docker.dockerCli args')
        (λ res st3, (Docker.cmdSuccess (Docker.read r st3 !! 1%nat) res, st3))
        (Docker.ensureType r type st0)).
  { intros st0. unfold Docker.dynamicCmd. by rewrite Hopts. }
  assert (Hstore : ∀ st2,
    Docker.arrays (Docker.bindD (Docker.dockerCli args')
        (λ res st3, (Docker.cmdSuccess (Docker.read r st3 !! 1%nat) res, st3)) st2).2
    = Docker.arrays st2
    ∧ Docker.trace (Docker.bindD (Docker.dockerCli args')
        (λ res st3, (Docker.cmdSuccess (Docker.read r st3 !! 1%nat) res, st3)) st2).2
      = Docker.trace (Docker.dockerCli args' st2).2).
  { intros st2. destruct (dockerCli_store args' st2) as [_ Harr].
    unfold Docker.bindD.
    destruct (Docker.dockerCli args' st2) as [[res|code|e] st3]; by simpl in *. }
  destruct (Hstep st given Hgiven) as (Hread & Harr & Htr & Hother).
  fold rest in Hread, Harr.
  rewrite !(Hrun st).
  destruct (Hstore (Docker.ensureType r type st)) as [Ha Ht].
  assert (Hcmd : Docker.cmdToRun args' (Docker.ensureType r type st) = cmd).
  { unfold Docker.cmdToRun. simpl. by rewrite Hread. }
  split; [by rewrite Ha|]. split; [intros r' v Hne Hv; rewrite Ha; by apply Hother|].
  split.
  { rewrite Ht. destruct (dockerCli_store args' (Docker.ensureType r type st))
      as [-> _]. rewrite Hcmd, !elem_of_app. right. right. by left. }
  split.
  { unfold Docker.bindD, Docker.dockerCli. rewrite Hcmd. fold result.
    assert (Hsnd : ∀ st3, Docker.arrays st3 = Docker.arrays (Docker.ensureType r type st) →
                          Docker.read r st3 !! 1%nat = head rest).
    { intros st3 Hst3. unfold Docker.read. rewrite Hst3, Harr. simpl.
      by destruct rest. }
    simpl. destruct (truthy_opt (Docker.executeCmd cmd).1); subst result; simpl.
    - destruct (Docker.apiError _ _ _); simpl; [|done..].
      by rewrite Hsnd by by destruct (Docker.log args).
    - destruct (Docker.apiSuccess _ _); simpl; [|done..].
      by rewrite Hsnd by by destruct (Docker.log args). }
  set (st' := (Docker.bindD _ _ _).2).
  assert (Hst' : Docker.arrays st' !! r = Some (type :: rest))
    by (unfold st'; by rewrite Ha).
  rewrite (Hrun st').
  destruct (Hstore (Docker.ensureType r type st')) as [-> _].
  destruct (Hstep st' (type :: rest) Hst') as (_ & -> & _). simpl.
  by rewrite bool_decide_eq_true_2.
Qed.

(** X17: [dynamicCmd] called without an option array makes one of its
    own, so no array that exists is changed: the options are [type]
    alone when [opts] is missing, empty or [type] itself, and [type]
    followed by the option otherwise. *)
Theorem dynamicCmd_wraps_single_option (args : Docker.CliArgs Value)
    (type : string) (st : Docker.store) :
  (∀ r, Docker.opts args ≠ Docker.OptArray r) →
  let words := match Docker.opts args with
               | Docker.OneOpt s =>
                   if truthy s && negb (bool_decide (s = type)) then [type; s]
                   else [type]
               | _ => [type]
               end in
  let cmd :=
    Docker.trim ("docker " +:+ Docker.trim (String.concat " " words)
                 +:+ " " +:+ (if Docker.force args then "--force" else "")
                 +:+ " " +:+ (if bool_decide (Docker.format args = "json")
                              then Docker.jsonFormat else Docker.format args)) in
  Docker.arrays (Docker.dynamicCmd args type st).2 = Docker.arrays st ++ [words]
  ∧ (∀ r v, Docker.arrays st !! r = Some v →
            Docker.arrays (Docker.dynamicCmd args type st).2 !! r = Some v)
  ∧ Docker.Executed cmd ∈ Docker.trace (Docker.dynamicCmd args type st).2.
Proof.
  intros Hnot words cmd.
  set (given := match Docker.opts args with
                | Docker.OneOpt s => if truthy s then [s] else []
                | _ => []
                end).
  set (st1 := Docker.mkStore (Docker.arrays st ++ [given]) (Docker.trace st)).
  set (r := length (Docker.arrays st)).
  assert (Hopts : Docker.optsArray (Docker.opts args) st = (r, st1)).
  { unfold Docker.optsArray. subst given st1.
    destruct (Docker.opts args) as [|s|r0]; [done..|]. by destruct (Hnot r0). }
  assert (Hwords : words = if bool_decide (head given = Some type) then given
                           else type :: given).
  { subst words given. destruct (Docker.opts args) as [|s|r0]; [done| |done].
    destruct (truthy s); simpl; [|done].
    case_bool_decide as Hs; case_bool_decide as Hh; by simplify_eq/=. }
  set (args' := Docker.mkCliArgs (Docker.OptArray r) (Docker.errResponse args)
                  (Docker.log args) (Docker.skipError args) (Docker.format args)
                  (Docker.force args)).
  assert (Hread : Docker.read r st1 = given).
  { unfold Docker.read. subst st1 r. simpl. by rewrite list_lookup_middle. }
  assert (Hst2 : Docker.ensureType r type st1
                 = Docker.mkStore (Docker.arrays st ++ [words]) (Docker.trace st)).
  { unfold Docker.ensureType. rewrite Hread, Hwords.
    case_bool_decide; [done|]. subst st1 r. simpl. f_equal.
    rewrite insert_app_r_alt by lia. by rewrite Nat.sub_diag. }
  assert (Hrun : Docker.dynamicCmd args type st
                 = Docker.bindD (Docker.dockerCli args')
                     (λ res st3, (Docker.cmdSuccess (Docker.read r st3 !! 1%nat) res,
                                  st3))
                     (Docker.ensureType r type st1)).
  { unfold Docker.dynamicCmd. by rewrite Hopts. }
  rewrite Hrun, Hst2.
  set (st2 := Docker.mkStore (Docker.arrays st ++ [words]) (Docker.trace st)).
  destruct (dockerCli_store args' st2) as [Htr Harr].
  assert (Hcmd : Docker.cmdToRun args' st2 = cmd).
  { unfold Docker.cmdToRun, Docker.read. simpl. subst r.
    by rewrite list_lookup_middle. }
  assert (Hstore : (Docker.bindD (Docker.dockerCli args')
                      (λ res st3, (Docker.cmdSuccess (Docker.read r st3 !! 1%nat) res,
                                   st3)) st2).2
                   = (Docker.dockerCli args' st2).2).
  { unfold Docker.bindD.
    by destruct (Docker.dockerCli args' st2) as [[res|code|e] st3]. }
  rewrite Hstore, Harr, Htr, Hcmd. simpl.
  split; [done|]. split.
  - intros r0 v Hv. by apply lookup_app_l_Some.
  - rewrite !elem_of_app. right. right. by left.
Qed.

(** X18: [remove] without an item, missing or empty, runs nothing and
    gives what [noItemError] gives; with an item it runs exactly one
    command, which begins with [docker], and changes no array. *)
Theorem remove_requires_item (item : option string) (force skipError : bool)
    (type : string) (st : Docker.store) :
  (truthy_opt item = false →
   Docker.remove item force skipError type st
   = (Docker.noItemError "docker.remove", st))
  ∧ (truthy_opt item = true →
     ∃ cmd,
       Docker.trace (Docker.remove item force skipError type st).2
       = Docker.trace st ++ [Docker.Executed cmd]
       ∧ String.prefix "docker" cmd = true
       ∧ Docker.arrays (Docker.remove item force skipError type st).2
         = Docker.arrays st).
Proof.
  unfold Docker.remove. split.
  - destruct item as [i|]; [|done]. simpl. by intros ->.
  - destruct item as [i|]; [|done]. simpl. intros ->.
    set (args := Docker.mkCliArgs _ _ _ _ _ _).
    exists (Docker.cmdToRun args st).
    destruct (dockerCli_store args st) as [-> ->].
    by destruct (cmdToRun_docker args st) as [-> _].
Qed.

(** X19: [raw] spawns exactly one command; the command is the one given
    when that begins with [docker] once trimmed, and otherwise [docker],
    a space and the one given, so that what is spawned always begins with
    [docker] once trimmed.  If [raw] returns, it returns the data of the process,
    and it reports success whenever there is data or no error. *)
Theorem raw_spawns_docker (cmd : string) (args loc : option string)
    (st : Docker.store) :
  let run := Docker.rawCommand cmd in
  let error := (Docker.spawnProc run args loc).1 in
  let data := (Docker.spawnProc run args loc).2 in
  String.prefix "docker" (Docker.trim run) = true
  ∧ (String.prefix "docker" (Docker.trim cmd) = true → run = cmd)
  ∧ (String.prefix "docker" (Docker.trim cmd) = false → run = "docker " +:+ cmd)
  ∧ (∃ more, Docker.trace (Docker.raw cmd args loc st).2
             = Docker.trace st ++ Docker.Spawned run :: more
             ∧ ∀ c, Docker.Spawned c ∉ more)
  ∧ (∀ d, (Docker.raw cmd args loc st).1 = Ret d → d = data)
  ∧ (truthy_opt data = true ∨ truthy_opt error = false →
     Docker.raw cmd args loc st
     = (Ret data,
        Docker.record (Docker.Success "  Finished running Docker CLI command!")
          (Docker.record (Docker.Spawned run) st))).
Proof.
  intros run error data. split; [|split; [|split; [|split; [|split]]]].
  - subst run. unfold Docker.rawCommand.
    destruct (String.prefix "docker" (Docker.trim cmd)) eqn:Hp; [done|].
    change ("docker " +:+ cmd) with ("docker" +:+ (" " +:+ cmd)).
    rewrite trim_docker. apply prefix_docker.
  - subst run. unfold Docker.rawCommand. by intros ->.
  - subst run. unfold Docker.rawCommand. by intros ->.
  - unfold Docker.raw. fold run. fold error data.
    destruct (truthy_opt error && negb (truthy_opt data)).
    + exists []. split; [|intros c; apply not_elem_of_nil].
      by destruct (Docker.apiError _ _ _).
    + eexists [_]. simpl. rewrite <- app_assoc. split; [done|].
      intros c Hin. by apply list_elem_of_singleton in Hin.
  - intros d. unfold Docker.raw. fold run. fold error data.
    destruct (truthy_opt error && negb (truthy_opt data)).
    + destruct (Docker.apiError _ _ _); simpl; [|done..]. by intros [= <-].
    + simpl. by intros [= <-].
  - intros Hok. unfold Docker.raw. fold run. fold error data.
    destruct Hok as [->| ->]; [|done]. by rewrite andb_false_r.
Qed.

End DockerFacts.

(** X15 at an input: an empty option array, no flag. *)
Lemma dockerCli_runs_one_docker_command_witness :
  @Docker.cmdToRun string Docker.exampleApi
    (Docker.mkCliArgs (Docker.OptArray 0) None false false "" false)
    (Docker.mkStore [[]] [])
  = "docker".
Proof.
  exact (proj2 (proj2 (proj2 (proj2
    (@dockerCli_runs_one_docker_command string Docker.exampleApi
       (Docker.mkCliArgs (Docker.OptArray 0) None false false "" false)
       (Docker.mkStore [[]] []))))) 0%nat eq_refl eq_refl eq_refl eq_refl).
Defined.

(** X16 at an input: [docker image ls -a] asked for with the array
    [["ls"; "-a"]], which then begins with [image]. *)
Lemma dynamicCmd_puts_type_first_witness :
  Docker.arrays
    (@Docker.dynamicCmd string Docker.exampleApi
       (Docker.mkCliArgs (Docker.OptArray 0) None false false "" false) "image"
       (Docker.mkStore [["ls"; "-a"]] [])).2 !! 0%nat
  = Some ["image"; "ls"; "-a"].
Proof.
  exact (proj1
    (@dynamicCmd_puts_type_first string Docker.exampleApi
       (Docker.mkCliArgs (Docker.OptArray 0) None false false "" false) "image"
       (Docker.mkStore [["ls"; "-a"]] []) 0%nat ["ls"; "-a"] eq_refl eq_refl)).
Defined.

(** X17 at an input: the single option [ls]. *)
Lemma dynamicCmd_wraps_single_option_witness :
  Docker.arrays
    (@Docker.dynamicCmd string Docker.exampleApi
       (Docker.mkCliArgs (Docker.OneOpt "ls") None false false "" false) "image"
       (Docker.mkStore [] [])).2
  = [["image"; "ls"]].
Proof.
  refine (proj1
    (@dynamicCmd_wraps_single_option string Docker.exampleApi
       (Docker.mkCliArgs (Docker.OneOpt "ls") None false false "" false) "image"
       (Docker.mkStore [] []) _)).
  intros r. discriminate.
Defined.

(** X18 at an input: the empty item. *)
Lemma remove_requires_item_witness :
  @Docker.remove string Docker.exampleApi (Some "") true false "image"
    (Docker.mkStore [] [])
  = (Throw (Fault "docker.remove"), Docker.mkStore [] []).
Proof.
  exact (proj1
    (@remove_requires_item string Docker.exampleApi (Some "") true false "image"
       (Docker.mkStore [] [])) eq_refl).
Defined.

(** X19 at an input: [ps -a] is spawned as [docker ps -a]. *)
Lemma raw_spawns_docker_witness :
  @Docker.raw string Docker.exampleApi "ps -a" None None (Docker.mkStore [] [])
  = (Ret (Some "ok"),
     Docker.mkStore []
       [Docker.Spawned "docker ps -a";
        Docker.Success "  Finished running Docker CLI command!"]).
Proof.
  refine (proj2 (proj2 (proj2 (proj2 (proj2
    (@raw_spawns_docker string Docker.exampleApi "ps -a" None None
       (Docker.mkStore [] [])))))) _).
  left. reflexivity.
Defined.

(** * Resolution written out *)

Lemma grown_logged (ext : list (list string)) (evs l : list event) (st : state) :
  grown ext evs (logged l st) = grown ext (l ++ evs) st.
Proof. unfold grown, logged. simpl. by rewrite <- app_assoc. Qed.

Lemma contents_of (r : ref) (opts : list string) (st : state) :
  arrays st !! r = Some opts → contents r st = opts.
Proof. intros Hr. unfold contents. by rewrite Hr. Qed.

Section ResultFacts.
Context `{Collaborators}.

Lemma validated_result (found : TaskData) (options : ref) (opts : list string)
    (st : state) :
  contents options st = opts →
  validated found options st = validatedResult found opts st.
Proof. intros <-. apply validated_run. Qed.

(** Without a usable link, [findTask] is the direct result. *)
Lemma findTask_direct_result (tasks : Tasks) (command : string) (options : ref)
    (st : state) (opts : list string) :
  truthy_opt (linkedPath (config st) command) = false →
  arrays st !! options = Some opts →
  findTask tasks command options st = directResult tasks command opts st.
Proof.
  intros Hinert Hopts. rewrite (findTask_inert _ _ _ _ Hinert).
  unfold directLookup, directResult.
  rewrite bind_run, callGetTask_run, contents_logged, (contents_of _ _ _ Hopts).
  rewrite grown_logged. simpl. apply validated_result. by apply contents_grown.
Qed.

(** With a usable link and the task set [allTasks], [findTask] is the
    result of the reroute. *)
Lemma findTask_tap_result (tasks allTasks : Tasks) (command : string)
    (options : ref) (st : state) (opts : list string) (tapObj : TapObj)
    (tapPath : string) :
  getTapLink (config st) command = Some tapObj →
  tap_path tapObj = Some tapPath →
  tapPath ≠ "" →
  arrays st !! options = Some opts →
  allTasksFor tapObj (config st) tasks command options st = (Ret allTasks, st) →
  findTask tasks command options st = tapResult allTasks tapPath command opts st.
Proof.
  intros Hlink Hpath Hne Hopts Hall.
  pose proof (allTasksFor_logged _ _ _ _ _ [LinkLookup command] _ _ Hall) as Hall1.
  pose proof (reroute_run _ tapPath _ _ _ _ _ _ Hall1) as Hre. simpl in Hre.
  rewrite contents_logged, (contents_of _ _ _ Hopts) in Hre.
  rewrite (findTask_linked _ _ _ _ _ _ Hlink Hpath Hne), bind_run, Hre.
  unfold tapResult. rewrite !grown_logged. simpl.
  destruct (parseArgs _ _ _ _ _) as [e|params]; [done|].
  destruct (from_option task_inject false _).
  - destruct (injectService _ _ _) as [e|td']; [done|].
    apply validated_result. by apply contents_grown.
  - apply validated_result. by apply contents_grown.
Qed.

(** C5: when the command has no entry in the tap links, or its entry has
    no path (missing or empty), the link check returns [false] and
    [findTask] comes to the direct lookup: the task is the one [getTask]
    finds for the command itself in the base task set, with the caller's
    options, the task data holds the options [getTask] left and no
    parameters, and [validateTask] decides on it with the help flag of the
    caller's last option.  The outcome, the arrays and the trace are those
    of the same call under a config from which the link was removed. *)
Theorem C5_link_without_path_is_inert (tasks : Tasks) (command : string)
    (options : ref) (st : state) (opts : list string) :
  getTapLink (config st) command = None
  ∨ (∃ tapObj, getTapLink (config st) command = Some tapObj
               ∧ (tap_path tapObj = None ∨ tap_path tapObj = Some "")) →
  arrays st !! options = Some opts →
  let found := getTask tasks command opts in
  let td := mkTaskData found.1 (length (arrays st)) None in
  let st' := grown [found.2] [LinkLookup command; TaskLookup Direct command] st in
  checkLinkedTaps tasks command options st
    = (Ret None, logged [LinkLookup command] st)
  ∧ findTask tasks command options st
    = match validateTask found.1 (hasHelpArg (last_elem opts)) with
      | inl e => (Throw e, st')
      | inr valid =>
          (Ret (if valid
                then match found.1 with
                     | Some _ => Resolved td
                     | None => EmptyObject
                     end
                else Falsy), st')
      end
  ∧ findTask tasks command options st
    = directLookup tasks command options (logged [LinkLookup command] st)
  ∧ getTapLink (unlink command (config st)) command = None
  ∧ findTask tasks command options (withConfig (unlink command (config st)) st)
    = ((findTask tasks command options st).1,
       withConfig (unlink command (config st))
         (findTask tasks command options st).2).
Proof.
  intros Hlink Hopts found td st'.
  assert (Hinert : truthy_opt (linkedPath (config st) command) = false).
  { unfold linkedPath.
    destruct Hlink as [->|(tapObj & -> & [Hp|Hp])]; simpl; by rewrite ?Hp. }
  assert (Hgone : getTapLink (unlink command (config st)) command = None).
  { unfold getTapLink, unlink. simpl.
    destruct (tapLinks (config st)) as [links|]; simpl; [|done].
    apply lookup_delete_eq. }
  split; [by apply checkLinkedTaps_inert|].
  split; [by apply findTask_direct_result|].
  split; [by apply findTask_inert|].
  split; [done|].
  rewrite (findTask_direct_result _ _ _ _ _ Hinert Hopts).
  rewrite (findTask_direct_result _ _ _ _ opts)
    by (done || (unfold linkedPath; simpl; by rewrite Hgone)).
  unfold directResult, validatedResult. simpl. fold found.
  by destruct (validateTask _ _).
Qed.

(** C4: for a command that is a key of the tap links with a non-empty
    path, in particular one that also names a built-in task, the link
    check does not come back empty and [findTask] comes to the reroute:
    unless loading the tap's tasks ends the process, the task resolved is
    the one [getTask] finds under the name [tap] in the task set of the
    tap, the arguments are parsed for it with the parameter
    [tap = command], the tap token is put before the last of its options,
    and [validateTask] decides on it; the task of the command's own name
    is not looked up.  In every call the lookup of the link comes first,
    and a direct lookup is made only when the link check returned
    [false]. *)
Theorem C4_tap_link_before_builtin (tasks : Tasks) (command : string)
    (options : ref) (st : state) (opts : list string) (tapObj : TapObj)
    (tapPath : string) :
  getTapLink (config st) command = Some tapObj →
  tap_path tapObj = Some tapPath →
  tapPath ≠ "" →
  arrays st !! options = Some opts →
  (checkLinkedTaps tasks command options st).1 ≠ Ret None
  ∧ findTask tasks command options st
    = (foundTask ← reroute tapObj tapPath (config st) tasks command options;
       validated foundTask options) (logged [LinkLookup command] st)
  ∧ ((∃ allTasks,
        allTasksFor tapObj (config st) tasks command options st = (Ret allTasks, st))
     ∨ (findTask tasks command options st).1 = Exit 1)
  ∧ (∀ allTasks,
       allTasksFor tapObj (config st) tasks command options st = (Ret allTasks, st) →
       let found := getTask allTasks "tap" opts in
       let seen := [LinkLookup command; TaskLookup ViaTap "tap"] in
       let st' := grown [opts; beforeLast ("tap=" +:+ command) found.2] seen st in
       let answer td :=
         match validateTask (td_task td) (hasHelpArg (last_elem opts)) with
         | inl e => (Throw e, st')
         | inr valid =>
             (Ret (if valid
                   then match td_task td with
                        | Some _ => Resolved td
                        | None => EmptyObject
                        end
                   else Falsy), st')
         end in
       findTask tasks command options st
       = match parseArgs found.1 found.2 command {["tap" := command]} (config st) with
         | inl e => (Throw e, grown [opts; found.2] seen st)
         | inr params =>
             let td := mkTaskData found.1 (S (length (arrays st))) (Some params) in
             if from_option task_inject false found.1
             then match injectService td command tapPath with
                  | inl e => (Throw e, st')
                  | inr td' => answer td'
                  end
             else answer td
         end
       ∧ (∀ td st1,
            findTask tasks command options st = (Ret (Resolved td), st1) →
            from_option task_inject false found.1 = false →
            td_task td = found.1
            ∧ contents (td_options td) st1
              = beforeLast ("tap=" +:+ command) found.2))
  ∧ (∀ name, TaskLookup Direct name
             ∉ newEvents st (findTask tasks command options st).2)
  ∧ ((findTask tasks command options st).1 ≠ Exit 1 →
     newEvents st (findTask tasks command options st).2
     = [LinkLookup command; TaskLookup ViaTap "tap"])
  ∧ (∀ tasks0 command0 options0 st0,
       head (newEvents st0 (findTask tasks0 command0 options0 st0).2)
         = Some (LinkLookup command0)
       ∧ ∀ name,
           TaskLookup Direct name
             ∈ newEvents st0 (findTask tasks0 command0 options0 st0).2 →
           (checkLinkedTaps tasks0 command0 options0 st0).1 = Ret None).
Proof.
  intros Hlink Hpath Hne Hopts.
  assert (Hgen : ∀ tasks0 command0 options0 st0,
    head (newEvents st0 (findTask tasks0 command0 options0 st0).2)
      = Some (LinkLookup command0)
    ∧ ∀ name,
        TaskLookup Direct name
          ∈ newEvents st0 (findTask tasks0 command0 options0 st0).2 →
        (checkLinkedTaps tasks0 command0 options0 st0).1 = Ret None).
  { intros tasks0 command0 options0 st0.
    destruct (findTask_store tasks0 command0 options0 st0)
      as (ext & evs & -> & Hcases).
    rewrite newEvents_grown. split; [done|]. intros name Hin.
    destruct Hcases as [[Hnone _]|[_ Hevs]]; [done|]. exfalso.
    apply elem_of_cons in Hin as [?|Hin]; [done|].
    destruct Hevs as [->|(taskFile & err & -> & _)].
    - by apply list_elem_of_singleton in Hin.
    - unfold loadFailure in Hin. rewrite !elem_of_cons, elem_of_nil in Hin.
      by destruct Hin as [?|[?|[?|[?|[]]]]]. }
  assert (Hsome : (checkLinkedTaps tasks command options st).1 ≠ Ret None).
  { rewrite (checkLinkedTaps_linked _ _ _ _ _ _ Hlink Hpath Hne).
    apply then_some_not_none. }
  split; [done|]. split; [by apply findTask_linked|].
  split; [|split; [|split; [|split; [|done]]]].
  - destruct (allTasksFor_run tapObj (config st) tasks command options st)
      as [?|(taskFile & err & Htasks & Hload & Hall)]; [by left|right].
    rewrite (findTask_linked _ _ _ _ _ _ Hlink Hpath Hne).
    assert (Hexit : reroute tapObj tapPath (config st) tasks command options
                      (logged [LinkLookup command] st)
                    = (Exit 1, logged (loadFailure taskFile err)
                                 (logged [LinkLookup command] st))).
    { unfold reroute, allTasksFor. rewrite Htasks.
      unfold allTasksFor in Hall. rewrite Htasks in Hall.
      destruct (negb (truthy taskFile)); [done|].
      rewrite !bind_run. simpl. rewrite contents_logged.
      by rewrite (getCustomTasks_fail _ _ _ _ Hload). }
    by rewrite (then_validated_exit _ _ _ _ _ Hexit).
  - intros allTasks Hall found seen st' answer.
    pose proof (findTask_tap_result _ _ _ _ _ _ _ _ Hlink Hpath Hne Hopts Hall) as Hrun.
    unfold tapResult, validatedResult in Hrun. fold found in Hrun.
    split; [exact Hrun|].
    intros td st1 Hres Hinj. rewrite Hrun, Hinj in Hres.
    destruct (parseArgs _ _ _ _ _) as [e|params]; [done|]. simpl in Hres.
    destruct (validateTask _ _) as [e|[]]; [done| |done].
    destruct found.1; [|done]. injection Hres as <- <-. split; [done|].
    apply contents_grown_second.
  - intros name Hin. by apply Hgen in Hin.
  - destruct (findTask_store tasks command options st)
      as (ext & evs & Hst & Hcases).
    rewrite Hst, newEvents_grown. intros Hexit.
    destruct Hcases as [[Hnone _]|[_ [->|(taskFile & err & _ & Hex)]]]; done.
Qed.

(** X6: registration and resolution compose.  After a registration of
    [name] that was not declined, the command [name] is rerouted to the tap
    whenever the location given was not empty: the link check does not come
    back empty, no direct lookup is made, and with the task set of the tap
    the resolution is the reroute to its [tap] task, for the location as
    the path of the tap.  A link registered with the empty location is
    inert: the resolution is the direct lookup of [name] in the base
    tasks. *)
Theorem registered_name_is_rerouted (silent : bool) (name location : string)
    (st : state) (t : TapObj) (tasks : Tasks) (options : ref)
    (opts : list string) :
  (buildTapObj silent name location st).1 = Ret (Some t) →
  arrays st !! options = Some opts →
  let st1 := (linkTap name location silent st).2 in
  (location ≠ "" →
   (checkLinkedTaps tasks name options st1).1 ≠ Ret None
   ∧ (∀ n, TaskLookup Direct n ∉ newEvents st1 (findTask tasks name options st1).2)
   ∧ (∀ allTasks,
        allTasksFor t (config st1) tasks name options st1 = (Ret allTasks, st1) →
        findTask tasks name options st1 = tapResult allTasks location name opts st1))
  ∧ (location = "" →
     findTask tasks name options st1 = directResult tasks name opts st1).
Proof.
  intros Hret Hopts st1.
  destruct (linkTap_config _ _ _ _ _ Hret) as (_ & Hc & _ & Ha & _).
  destruct (buildTapObj_built _ _ _ _ _ Hret) as (r & _ & _ & Ht & _).
  fold st1 in Hc, Ha.
  assert (Hlink : getTapLink (config st1) name = Some t).
  { rewrite Hc. unfold getTapLink. simpl. apply lookup_insert_eq. }
  assert (Hpath : tap_path t = Some location) by by rewrite Ht.
  assert (Hopts1 : arrays st1 !! options = Some opts) by by rewrite Ha.
  split.
  - intros Hne.
    assert (Hsome : (checkLinkedTaps tasks name options st1).1 ≠ Ret None).
    { rewrite (checkLinkedTaps_linked _ _ _ _ _ _ Hlink Hpath Hne).
      apply then_some_not_none. }
    split; [done|]. split.
    + intros n Hin. by apply direct_lookup_after_empty_check in Hin.
    + intros allTasks Hall.
      by apply (findTask_tap_result _ _ _ _ _ _ t location).
  - intros ->. apply findTask_direct_result; [|done]. unfold linkedPath.
    by rewrite Hlink; simpl; rewrite Hpath.
Qed.

End ResultFacts.

(** C4 at an input: [build] is a built-in task and the name of a linked
    tap; the command resolves to the [tap] task, with the tap token before
    [--verbose], and [build] is never looked up. *)
Lemma C4_tap_link_before_builtin_witness :
  Scenario.builtins !! "build" = Some Scenario.buildTask
  ∧ @findTask ResolveScenario.plain Scenario.builtins "build" 0%nat
      ResolveScenario.buildLinked
    = (Ret (Resolved (mkTaskData (Some Scenario.tapTask) 2 (Some {["tap" := "build"]}))),
       grown [["--verbose"]; ["tap=build"; "--verbose"]]
         [LinkLookup "build"; TaskLookup ViaTap "tap"] ResolveScenario.buildLinked).
Proof.
  split; [reflexivity|].
  destruct (@C4_tap_link_before_builtin ResolveScenario.plain Scenario.builtins
              "build" 0%nat ResolveScenario.buildLinked ["--verbose"]
              ResolveScenario.buildTap "/repos/build")
    as (_ & _ & _ & Hrun & _).
  - reflexivity.
  - reflexivity.
  - discriminate.
  - reflexivity.
  - exact (proj1 (Hrun Scenario.builtins eq_refl)).
Defined.

(** C5 at an input: the link of [build] has no path; the command resolves
    to the built-in task [build]. *)
Lemma C5_link_without_path_is_inert_witness :
  @findTask ResolveScenario.plain Scenario.builtins "build" 0%nat
    ResolveScenario.buildPathless
  = (Ret (Resolved (mkTaskData (Some Scenario.buildTask) 1 None)),
     grown [["--verbose"]] [LinkLookup "build"; TaskLookup Direct "build"]
       ResolveScenario.buildPathless).
Proof.
  refine (proj1 (proj2
    (@C5_link_without_path_is_inert ResolveScenario.plain Scenario.builtins
       "build" 0%nat ResolveScenario.buildPathless ["--verbose"] _ eq_refl))).
  right. exists ResolveScenario.pathless. split; [reflexivity|]. left. reflexivity.
Defined.

(** X6 at an input: [x] registered at [/b], then resolved to the [tap]
    task. *)
Lemma registered_name_is_rerouted_witness :
  let st1 := (@linkTap (LinkScenario.bare true) "x" "/b" false
                LinkScenario.unlinked).2 in
  @findTask (LinkScenario.bare true) Scenario.builtins "x" 0%nat st1
  = (Ret (Resolved (mkTaskData (Some Scenario.tapTask) 2 (Some {["tap" := "x"]}))),
     grown [[]; ["tap=x"]] [LinkLookup "x"; TaskLookup ViaTap "tap"] st1).
Proof.
  refine (proj2 (proj2 (proj1
    (@registered_name_is_rerouted (LinkScenario.bare true) false "x" "/b"
       LinkScenario.unlinked (mkTapObj (Some "/b") None) Scenario.builtins 0%nat []
       eq_refl eq_refl) _)) Scenario.builtins eq_refl).
  discriminate.
Defined.

(** * Resolution with task modules that act on what they are handed *)

Lemma insert_contents (r : ref) (st : state) :
  <[r := contents r st]> (arrays st) = arrays st.
Proof.
  unfold contents. destruct (arrays st !! r) as [v|] eqn:Hr; simpl.
  - by apply list_insert_id.
  - apply list_insert_ge. by apply lookup_ge_None.
Qed.

Section LiveFacts.
Context `{Collaborators} `{LiveModules}.

(** The handler of a failed load in closed form. *)
Lemma caught_run (taskFile : string) (t : thrown) (st : state) :
  Live.caught taskFile t st
  = match t with
    | ThrownError err => (Exit 1, logged (loadFailure taskFile err) st)
    | ThrownNullish =>
        (Throw typeError,
         logged [LogEmpty; LogWarn ("Error loading custom tasks from path " +:+ taskFile)]
           st)
    end.
Proof.
  unfold Live.caught. destruct t; unfold_monad; unfold logged, loadFailure; simpl;
    by rewrite <- !app_assoc.
Qed.

(** After the task set is there, the live reroute goes on as the one
    above does for a link without tasks, under the config of the store. *)
Lemma finish_pure (tapPath : string) (allTasks : Tasks) (command : string)
    (options : ref) (st : state) :
  Live.finish tapPath allTasks command options st
  = reroute (mkTapObj None None) tapPath (config st) allTasks command options st.
Proof. reflexivity. Qed.

(** Loading the tasks of a tap: the function of the module, if one is
    called, acts on the store; then the task set is there, or the handler
    ran. *)
Lemma live_allTasksFor_run (tapObj : TapObj) (tasks : Tasks) (command : string)
    (options : ref) (st : state) :
  let st1 := Live.left (Live.called tapObj tasks command options st) options st in
  (∃ allTasks, Live.allTasksFor tapObj tasks command options st = (Ret allTasks, st1))
  ∨ (∃ taskFile t,
       tap_tasks tapObj = Some taskFile
       ∧ Live.allTasksFor tapObj tasks command options st = Live.caught taskFile t st1).
Proof.
  unfold Live.allTasksFor, Live.called.
  destruct (tap_tasks tapObj) as [taskFile|]; [|by left; eexists].
  destruct (truthy taskFile); simpl; [|by left; eexists].
  unfold Live.getCustomTasks. rewrite bind_run. simpl. rewrite bind_run. simpl.
  destruct (liveRequire taskFile) as [t|[m|f]]; simpl.
  - right. by exists taskFile, t.
  - left. by eexists.
  - set (run := f _). rewrite bind_run. simpl. rewrite bind_run. simpl.
    destruct run.2 as [t|custom]; [right; by exists taskFile, t|left; by eexists].
Qed.

Lemma quiet_failure (taskFile : string) (err : fault) :
  quiet (loadFailure taskFile err).
Proof.
  intros e Hin. unfold loadFailure in Hin. rewrite !elem_of_cons, elem_of_nil in Hin.
  by destruct Hin as [->|[->|[->|[->|[]]]]].
Qed.

(** What the handler does to the store: it logs lines. *)
Lemma caught_store (taskFile : string) (t : thrown) (st : state) :
  ∃ evs, (Live.caught taskFile t st).2 = logged evs st ∧ quiet evs
         ∧ ∀ a, (Live.caught taskFile t st).1 ≠ Ret a.
Proof.
  rewrite caught_run. destruct t as [err|]; eexists; (split; [done|]); split; try done.
  - apply quiet_failure.
  - intros e Hin. rewrite !elem_of_cons, elem_of_nil in Hin.
    by destruct Hin as [->|[->|[]]].
Qed.

(** The store a live reroute leaves: the one the module's function left,
    with the arrays allocated and the lines logged since. *)
Lemma live_reroute_store (tapObj : TapObj) (tapPath : string) (tasks : Tasks)
    (command : string) (options : ref) (st : state) :
  ∃ ext evs,
    (Live.reroute tapObj tapPath tasks command options st).2
    = grown ext evs (Live.left (Live.called tapObj tasks command options st) options st)
    ∧ quiet evs.
Proof.
  unfold Live.reroute. rewrite bind_run.
  destruct (live_allTasksFor_run tapObj tasks command options st)
    as [[allTasks ->]|(taskFile & t & _ & ->)].
  - rewrite finish_pure. set (st1 := Live.left _ _ _).
    destruct (reroute_store (mkTapObj None None) tapPath (config st1) allTasks
                command options st1)
      as [(all' & ext & _ & -> & _)|(taskFile & err & ? & _)]; [|done].
    exists ext, [TaskLookup ViaTap "tap"]. split; [done|].
    intros e Hin. by apply list_elem_of_singleton in Hin as ->.
  - set (st1 := Live.left _ _ _).
    destruct (caught_store taskFile t st1) as (evs & Hst & Hq & Hno).
    exists [], evs. split; [|done].
    destruct (Live.caught taskFile t st1) as [[a|code|e] st2] eqn:Hc; simpl in *;
      [by destruct (Hno a)| |]; subst st2;
      unfold grown, logged; simpl; by rewrite app_nil_r.
Qed.

Lemma live_checkLinkedTaps_inert (tasks : Tasks) (command : string) (options : ref)
    (st : state) :
  truthy_opt (linkedPath (config st) command) = false →
  Live.checkLinkedTaps tasks command options st
  = (Ret None, logged [LinkLookup command] st)
  ∧ Live.handed tasks command options st = None.
Proof.
  unfold linkedPath, Live.checkLinkedTaps, Live.handed. intros Hp.
  rewrite bind_run. simpl. rewrite bind_run. simpl.
  destruct (getTapLink (config st) command) as [tapObj|]; [|done]. simpl in Hp.
  destruct (tap_path tapObj) as [tapPath|]; [|done]. simpl in *.
  by rewrite Hp.
Qed.

(** Without a usable link no module is loaded: the live resolver is the
    one above. *)
Lemma live_findTask_inert (tasks : Tasks) (command : string) (options : ref)
    (st : state) :
  truthy_opt (linkedPath (config st) command) = false →
  Live.findTask tasks command options st = findTask tasks command options st.
Proof.
  intros Hp. unfold Live.findTask, findTask.
  rewrite (bind_ret _ _ _ _ _ (proj1 (live_checkLinkedTaps_inert _ _ _ _ Hp))).
  by rewrite (bind_ret _ _ _ _ _ (checkLinkedTaps_inert _ _ _ _ Hp)).
Qed.

(** With a usable link, the live resolution is the live reroute, then
    validation. *)
Lemma live_findTask_linked (tasks : Tasks) (command : string) (options : ref)
    (st : state) (tapObj : TapObj) (tapPath : string) :
  getTapLink (config st) command = Some tapObj →
  tap_path tapObj = Some tapPath →
  tapPath ≠ "" →
  Live.findTask tasks command options st
  = (foundTask ← Live.reroute tapObj tapPath tasks command options;
     validated foundTask options) (logged [LinkLookup command] st)
  ∧ Live.handed tasks command options st
    = Live.called tapObj tasks command options st.
Proof.
  intros Hlink Hpath Hne%truthy_true. split.
  - unfold Live.findTask, Live.checkLinkedTaps.
    rewrite !bind_run. simpl. rewrite !bind_run. simpl.
    rewrite Hlink, Hpath, Hne. simpl. rewrite !bind_run.
    by destruct (Live.reroute _ _ _ _ _ _) as [[td|code|e] st'].
  - unfold Live.handed. by rewrite Hlink, Hpath; simpl; rewrite Hne.
Qed.

Lemma left_logged (h : option Handed) (options : ref) (evs : list event)
    (st : state) :
  Live.left h options (logged evs st) = logged evs (Live.left h options st).
Proof. by destruct h. Qed.

(** What a live resolution does to the store: the function of the tap's
    task module, if one is called, leaves the option array and the config
    as it will; the resolver allocates arrays and extends the trace, and
    neither saves nor asks. *)
Lemma live_findTask_store (tasks : Tasks) (command : string) (options : ref)
    (st : state) :
  ∃ ext evs,
    (Live.findTask tasks command options st).2
    = grown ext (LinkLookup command :: evs)
        (Live.left (Live.handed tasks command options st) options st)
    ∧ quiet evs.
Proof.
  destruct (linkedPath_cases (config st) command)
    as [Hinert|(tapObj & tapPath & Hlink & Hpath & Hne)].
  - rewrite (live_findTask_inert _ _ _ _ Hinert).
    rewrite (proj2 (live_checkLinkedTaps_inert tasks command options st Hinert)).
    rewrite (findTask_inert _ _ _ _ Hinert), directLookup_store. simpl.
    eexists _, [_]. rewrite grown_logged. split; [done|].
    intros e Hin. by apply list_elem_of_singleton in Hin as ->.
  - destruct (live_findTask_linked tasks command options st _ _ Hlink Hpath Hne)
      as [-> ->].
    rewrite then_validated_store.
    destruct (live_reroute_store tapObj tapPath tasks command options
                (logged [LinkLookup command] st)) as (ext & evs & -> & Hq).
    exists ext, evs. split; [|done].
    change (Live.called tapObj tasks command options (logged [LinkLookup command] st))
      with (Live.called tapObj tasks command options st).
    by rewrite left_logged, grown_logged.
Qed.

Lemma left_config (h : option Handed) (options : ref) (st : state) :
  config (Live.left h options st) = from_option h_globalConfig (config st) h.
Proof. by destruct h. Qed.

Lemma left_disk (h : option Handed) (options : ref) (st : state) :
  disk (Live.left h options st) = disk st.
Proof. by destruct h. Qed.

Lemma left_log (h : option Handed) (options : ref) (st : state) :
  log (Live.left h options st) = log st.
Proof. by destruct h. Qed.

Lemma left_arrays (h : option Handed) (options r : ref) (opts : list string)
    (st : state) :
  arrays st !! options = Some opts →
  arrays (Live.left h options st) !! r
  = if decide (r = options) then Some (from_option h_options opts h)
    else arrays st !! r.
Proof.
  intros Hopts. destruct h as [h|]; simpl.
  - destruct (decide (r = options)) as [->|Hne].
    + apply list_lookup_insert_eq. by apply lookup_lt_Some in Hopts.
    + by apply list_lookup_insert_ne.
  - by destruct (decide (r = options)) as [->|Hne].
Qed.

Lemma newEvents_left (h : option Handed) (options : ref)
    (ext : list (list string)) (evs : list event) (st : state) :
  newEvents st (grown ext evs (Live.left h options st)) = evs.
Proof.
  unfold newEvents, grown. simpl. rewrite left_log. by rewrite drop_app_length.
Qed.

End LiveFacts.

Section LiveClaims.
Context `{Collaborators} `{LiveModules}.

(** C8 (amended): when the task module of a linked tap throws an error
    object, on loading or when its function is called, [getCustomTasks]
    catches it, logs a warning with the path of the module and the
    error's message, and ends the process with status 1; the resolution of
    the tap's command therefore exits with status 1.  The resolver itself
    changes no config: the one on disk is untouched and nothing is saved,
    and the one in memory is as the function of the module left it, which
    is as it was when the module fails on loading or its function leaves
    the config alone. *)
Theorem C8_tap_module_error_is_fatal (tasks : Tasks) (command : string)
    (options : ref) (st : state) (tapObj : TapObj) (tapPath taskFile : string)
    (err : fault) :
  getTapLink (config st) command = Some tapObj →
  tap_path tapObj = Some tapPath →
  tapPath ≠ "" →
  tap_tasks tapObj = Some taskFile →
  taskFile ≠ "" →
  let args := mkLoaderArgs (config st) tasks command (contents options st) in
  (liveRequire taskFile = inl (ThrownError err)
   ∨ ∃ f, liveRequire taskFile = inr (LiveFactory f)
          ∧ (f args).2 = inl (ThrownError err)) →
  let failure :=
    [LogEmpty; LogWarn ("Error loading custom tasks from path " +:+ taskFile);
     LogError (message err); LogEmpty] in
  let run := Live.findTask tasks command options st in
  (∀ st0, Live.caught taskFile (ThrownError err) st0 = (Exit 1, logged failure st0))
  ∧ run.1 = Exit 1
  ∧ newEvents st run.2 = LinkLookup command :: failure
  ∧ disk run.2 = disk st
  ∧ (Saved ∉ newEvents st run.2)
  ∧ (liveRequire taskFile = inl (ThrownError err) →
     run = (Exit 1, logged (LinkLookup command :: failure) st))
  ∧ (∀ f, liveRequire taskFile = inr (LiveFactory f) →
          run = (Exit 1,
                 logged (LinkLookup command :: failure)
                   (mkState (h_globalConfig (f args).1) (disk st)
                      (<[options := h_options (f args).1]> (arrays st)) (log st)))
          ∧ (h_globalConfig (f args).1 = config st → config run.2 = config st)).
Proof.
  intros Hlink Hpath Hne Htasks Hfile%truthy_true args Hthrows failure run.
  assert (Hcaught : ∀ st0, Live.caught taskFile (ThrownError err) st0
                           = (Exit 1, logged failure st0)).
  { intros st0. by rewrite caught_run. }
  assert (Hrun : run = (Exit 1, logged (LinkLookup command :: failure)
                                  (Live.left (Live.called tapObj tasks command options st)
                                     options st))).
  { subst run.
    rewrite (proj1 (live_findTask_linked _ _ _ _ _ _ Hlink Hpath Hne)).
    apply then_validated_exit. unfold Live.reroute, Live.allTasksFor, Live.called.
    rewrite Htasks, Hfile. simpl.
    unfold Live.getCustomTasks. rewrite !bind_run. simpl. rewrite !bind_run. simpl.
    fold args.
    destruct Hthrows as [->|(f & -> & Hf)].
    - rewrite Hcaught. by rewrite logged_logged.
    - simpl. rewrite !bind_run. simpl. rewrite !bind_run. simpl.
      change (contents options (logged [LinkLookup command] st))
        with (contents options st).
      fold args. rewrite Hf.
      rewrite Hcaught. unfold logged. simpl. by rewrite <- app_assoc. }
  split; [done|]. rewrite Hrun. simpl.
  assert (Hev : newEvents st
                  (logged (LinkLookup command :: failure)
                     (Live.left (Live.called tapObj tasks command options st) options st))
                = LinkLookup command :: failure).
  { unfold newEvents, logged. simpl. by rewrite left_log, drop_app_length. }
  rewrite Hev, left_disk.
  split; [done|]. split; [done|]. split; [done|]. split; [|split].
  - subst failure. rewrite !elem_of_cons, elem_of_nil.
    intros [?|[?|[?|[?|[?|[]]]]]]; discriminate.
  - intros Hreq. unfold Live.called. by rewrite Htasks, Hfile, Hreq.
  - intros f Hreq. unfold Live.called. rewrite Htasks, Hfile, Hreq. fold args.
    split; [done|]. intros Hcfg. simpl. exact Hcfg.
Qed.

(** C10 (amended): the resolver's own steps never change the caller's
    option array, nor any array that exists when [findTask] is called: the
    reroute splices the tap token into an array of its own.  After
    [findTask] the caller's array holds what the function of the tap's
    task module left in it, and every other array what it held; so the
    array, and its last element in particular, is the same whenever no
    such function is called (the command has no usable link, the link has
    no task entry, or the module is a task mapping or fails on loading) or
    the function leaves the array alone. *)
Theorem C10_options_changed_only_by_tap_module (tasks : Tasks) (command : string)
    (options : ref) (st : state) (opts : list string) :
  arrays st !! options = Some opts →
  let st' := (Live.findTask tasks command options st).2 in
  let h := Live.handed tasks command options st in
  arrays st' !! options = Some (from_option h_options opts h)
  ∧ (∀ r v, r ≠ options → arrays st !! r = Some v → arrays st' !! r = Some v)
  ∧ (from_option h_options opts h = opts →
     arrays st' !! options = Some opts
     ∧ contents options st' = contents options st
     ∧ last_elem (contents options st') = last_elem opts
     ∧ ∀ r v, arrays st !! r = Some v → arrays st' !! r = Some v)
  ∧ (truthy_opt (linkedPath (config st) command) = false → h = None)
  ∧ (∀ tapObj, getTapLink (config st) command = Some tapObj →
               truthy_opt (tap_tasks tapObj) = false → h = None)
  ∧ (∀ tapObj taskFile,
       getTapLink (config st) command = Some tapObj →
       tap_tasks tapObj = Some taskFile →
       (∀ f, liveRequire taskFile ≠ inr (LiveFactory f)) → h = None)
  ∧ (∀ tapObj tapPath taskFile f,
       getTapLink (config st) command = Some tapObj →
       tap_path tapObj = Some tapPath → tapPath ≠ "" →
       tap_tasks tapObj = Some taskFile → taskFile ≠ "" →
       liveRequire taskFile = inr (LiveFactory f) →
       h = Some (f (mkLoaderArgs (config st) tasks command opts)).1).
Proof.
  intros Hopts st' h.
  destruct (live_findTask_store tasks command options st) as (ext & evs & Hst & _).
  fold st' h in Hst.
  assert (Hat : ∀ r v, arrays st !! r = Some v →
                  arrays st' !! r
                  = Some (if decide (r = options) then from_option h_options opts h
                          else v)).
  { intros r v Hr. rewrite Hst. simpl.
    pose proof (left_arrays h options r opts st Hopts) as Hl.
    assert (Hsome : arrays (Live.left h options st) !! r
                    = Some (if decide (r = options)
                            then from_option h_options opts h else v)).
    { rewrite Hl. destruct (decide (r = options)); [done|]. by rewrite Hr. }
    by apply lookup_app_l_Some. }
  split; [|split; [|split; [|split; [|split; [|split]]]]].
  - rewrite (Hat _ _ Hopts). by rewrite decide_True.
  - intros r v Hne Hr. rewrite (Hat _ _ Hr). by rewrite decide_False.
  - intros Hsame.
    assert (Hall : ∀ r v, arrays st !! r = Some v → arrays st' !! r = Some v).
    { intros r v Hr. rewrite (Hat _ _ Hr).
      destruct (decide (r = options)) as [->|]; [|done]. rewrite Hsame. congruence. }
    split; [by apply Hall|]. unfold contents. rewrite (Hall _ _ Hopts), Hopts.
    by split.
  - intros Hinert. by apply live_checkLinkedTaps_inert.
  - intros tapObj Hlink Hnone. subst h. unfold Live.handed, Live.called.
    rewrite Hlink. destruct (tap_tasks tapObj) as [taskFile|]; simpl in *.
    + rewrite Hnone. by destruct (truthy_opt _).
    + by destruct (truthy_opt _).
  - intros tapObj taskFile Hlink Htasks Hno. subst h. unfold Live.handed, Live.called.
    rewrite Hlink, Htasks. destruct (truthy_opt _); [|done].
    destruct (truthy taskFile); [|done].
    destruct (liveRequire taskFile) as [t|[m|f]] eqn:Hreq; try done.
    by destruct (Hno f).
  - intros tapObj tapPath taskFile f Hlink Hpath Hne%truthy_true Htasks
      Hfile%truthy_true Hreq.
    subst h. unfold Live.handed, Live.called.
    rewrite Hlink, Hpath, Htasks. simpl. rewrite Hne, Hfile, Hreq.
    by rewrite (contents_of _ _ _ Hopts).
Qed.

(** X9: the resolver's own steps never touch the global config.  After a
    resolution the config in memory is as the function of the tap's task
    module left it, and as it was when no such function is called; the
    config on disk is as it was, and the resolver saves nothing and asks
    the operator nothing. *)
Theorem findTask_writes_no_config (tasks : Tasks) (command : string) (options : ref)
    (st : state) :
  let st' := (Live.findTask tasks command options st).2 in
  let h := Live.handed tasks command options st in
  config st' = from_option h_globalConfig (config st) h
  ∧ (h = None → config st' = config st)
  ∧ (∀ tapObj, getTapLink (config st) command = Some tapObj →
               truthy_opt (tap_path tapObj) = false
               ∨ truthy_opt (tap_tasks tapObj) = false → h = None)
  ∧ (getTapLink (config st) command = None → h = None)
  ∧ disk st' = disk st
  ∧ (Saved ∉ newEvents st st')
  ∧ ∀ msg answer, Asked msg answer ∉ newEvents st st'.
Proof.
  intros st' h.
  destruct (live_findTask_store tasks command options st) as (ext & evs & Hst & Hq).
  fold st' h in Hst. rewrite Hst, newEvents_left. simpl.
  rewrite left_config, left_disk.
  assert (Hevs : quiet (LinkLookup command :: evs)).
  { intros e [->|Hin]%elem_of_cons; [done|]. by apply Hq. }
  split; [done|]. split; [by intros ->|]. split; [|split].
  - intros tapObj Hlink Hor. subst h. unfold Live.handed, Live.called.
    rewrite Hlink. destruct Hor as [->|Hnone]; [done|].
    destruct (truthy_opt (tap_path tapObj)); [|done].
    destruct (tap_tasks tapObj) as [taskFile|]; [|done]. simpl in Hnone.
    by rewrite Hnone.
  - intros Hlink. subst h. unfold Live.handed. by rewrite Hlink.
  - split; [done|]. split.
    + intros Hin. by destruct (Hevs _ Hin).
    + intros msg answer Hin. destruct (Hevs _ Hin) as [_ Hno].
      by apply (Hno msg answer).
Qed.

End LiveClaims.

(** X20: for task modules that leave what they are handed alone and throw
    only errors with a message (the modules of [pureModules]), the
    resolver with live modules is the resolver above: same outcome, same
    store. *)
Theorem live_findTask_agrees_on_pure_modules (W : Collaborators) (tasks : Tasks)
    (command : string) (options : ref) (st : state) :
  @Live.findTask W (pureModules W) tasks command options st
  = @findTask W tasks command options st.
Proof.
  destruct (linkedPath_cases (config st) command)
    as [Hinert|(tapObj & tapPath & Hlink & Hpath & Hne)].
  { by apply live_findTask_inert. }
  rewrite (proj1 (@live_findTask_linked W (pureModules W) _ _ _ _ _ _ Hlink Hpath Hne)).
  rewrite (@findTask_linked W _ _ _ _ _ _ Hlink Hpath Hne).
  rewrite !bind_run. set (st0 := logged [LinkLookup command] st).
  assert (Hre : @Live.reroute W (pureModules W) tapObj tapPath tasks command options st0
                = @reroute W tapObj tapPath (config st) tasks command options st0);
    [|by rewrite Hre].
  unfold Live.reroute, reroute. rewrite !bind_run.
  assert (Hall : @Live.allTasksFor (pureModules W) tapObj tasks command options st0
                 = @allTasksFor W tapObj (config st) tasks command options st0).
  { unfold Live.allTasksFor, allTasksFor.
    destruct (tap_tasks tapObj) as [taskFile|]; [|done].
    destruct (negb (truthy taskFile)); [done|].
    unfold Live.getCustomTasks, getCustomTasks, loadTasks.
    rewrite !bind_run. simpl. rewrite !bind_run. simpl.
    destruct (@require W taskFile) as [err|[m|f]]; simpl.
    - rewrite caught_run. unfold_monad. unfold logged, loadFailure. simpl.
      by rewrite <- !app_assoc.
    - done.
    - rewrite !bind_run. simpl. rewrite !bind_run. simpl.
      change (contents options st0) with (contents options st).
      assert (Hst : mkState (config st) (disk st)
                      (<[options := contents options st]> (arrays st))
                      (log st ++ [LinkLookup command]) = st0).
      { by rewrite insert_contents. }
      rewrite Hst.
      destruct (f _) as [err|custom]; [|done].
      rewrite caught_run. unfold_monad. unfold logged, loadFailure. simpl.
      by rewrite <- !app_assoc. }
  rewrite Hall.
  destruct (@allTasksFor W tapObj (config st) tasks command options st0)
    as [[allTasks|code|e] st1] eqn:Hpure; [|done..].
  assert (st1 = st0) as ->.
  { destruct (@allTasksFor_run W tapObj (config st) tasks command options st0)
      as [[all' Heq]|(taskFile & err & _ & _ & Heq)]; congruence. }
  by rewrite finish_pure.
Qed.

(** C8 as stated fails.  A task module that rejects without a value is not
    fatal: the handler logs its first two lines and throws reading the
    message, so the process is not ended and no error line is logged.  And
    a task module that empties the links of the config it is handed before
    it throws an error leaves the config in memory changed. *)
Lemma C8_nullish_rejection_is_not_fatal :
  let st := ResolveScenario.withTasks in
  let run := @Live.findTask ResolveScenario.plain LiveScenario.rejecting
               Scenario.builtins "mytap" 0%nat st in
  let run' := @Live.findTask ResolveScenario.plain LiveScenario.unlinkingThenThrowing
                Scenario.builtins "mytap" 0%nat st in
  run.1 = Throw typeError
  ∧ (∀ code, run.1 ≠ Exit code)
  ∧ newEvents st run.2
    = [LinkLookup "mytap"; LogEmpty;
       LogWarn "Error loading custom tasks from path /repos/mytap/tasks/index.js"]
  ∧ run'.1 = Exit 1
  ∧ getTapLink (config st) "mytap" = Some ResolveScenario.mytapWithTasks
  ∧ getTapLink (config run'.2) "mytap" = None
  ∧ config run'.2 ≠ config st.
Proof. by vm_compute. Qed.

(** C8 (amended) at an input: loading the task index of [mytap] throws an
    error. *)
Lemma C8_tap_module_error_is_fatal_witness :
  @Live.findTask ResolveScenario.plain LiveScenario.broken Scenario.builtins "mytap"
    0%nat ResolveScenario.withTasks
  = (Exit 1,
     logged [LinkLookup "mytap"; LogEmpty;
             LogWarn "Error loading custom tasks from path /repos/mytap/tasks/index.js";
             LogError "Unexpected token"; LogEmpty]
       ResolveScenario.withTasks).
Proof.
  refine (proj1 (proj2 (proj2 (proj2 (proj2 (proj2
    (@C8_tap_module_error_is_fatal ResolveScenario.plain LiveScenario.broken
       Scenario.builtins "mytap" 0%nat ResolveScenario.withTasks
       ResolveScenario.mytapWithTasks "/repos/mytap" ResolveScenario.indexFile
       (Fault "Unexpected token") eq_refl eq_refl _ eq_refl _ _)))))) eq_refl).
  - discriminate.
  - discriminate.
  - left. reflexivity.
Defined.

(** C10 as stated fails: the task module of [mytap] pushes a flag onto the
    options it is handed, which are the caller's array; after the
    resolution the caller's array holds the flag, and its last element is
    not the one it was. *)
Lemma C10_tap_module_mutates_options :
  let st := ResolveScenario.withTasks in
  let run := @Live.findTask ResolveScenario.plain LiveScenario.pushing
               Scenario.builtins "mytap" 0%nat st in
  arrays st !! 0%nat = Some ["--verbose"]
  ∧ arrays run.2 !! 0%nat = Some ["--verbose"; "--force"]
  ∧ arrays run.2 !! 0%nat ≠ arrays st !! 0%nat
  ∧ last_elem (contents 0%nat run.2) ≠ last_elem (contents 0%nat st)
  ∧ resolvedOptions run = Some ["--verbose"; "tap=mytap"; "--force"].
Proof. by vm_compute. Qed.

(** C10 (amended) at an input: the link of [mytap] has no task entry;
    after the reroute the caller's array still holds [--verbose] alone. *)
Lemma C10_options_changed_only_by_tap_module_witness :
  arrays (@Live.findTask ResolveScenario.plain LiveScenario.pushing Scenario.builtins
            "mytap" 0%nat ResolveScenario.verbose).2 !! 0%nat
  = Some ["--verbose"].
Proof.
  exact (proj1
    (@C10_options_changed_only_by_tap_module ResolveScenario.plain LiveScenario.pushing
       Scenario.builtins "mytap" 0%nat ResolveScenario.verbose ["--verbose"] eq_refl)).
Defined.

(** X9 at an input: the task module of [mytap] empties the links of the
    config it is handed and throws; the config on disk keeps the link. *)
Lemma findTask_writes_no_config_witness :
  let run := @Live.findTask ResolveScenario.plain LiveScenario.unlinkingThenThrowing
               Scenario.builtins "mytap" 0%nat ResolveScenario.withTasks in
  config run.2 = mkConfig (Some ∅)
  ∧ disk run.2 = disk ResolveScenario.withTasks.
Proof.
  intros run.
  pose proof (@findTask_writes_no_config ResolveScenario.plain
                LiveScenario.unlinkingThenThrowing Scenario.builtins "mytap" 0%nat
                ResolveScenario.withTasks) as (Hconfig & _ & _ & _ & Hdisk & _).
  split; [exact Hconfig | exact Hdisk].
Defined.
